(** * MSbot-AI rune solver: detection merge and pipe session

    A shallow embedding of [src/main.py]: the box locator
    ([sort_by_confidence], [get_boxes]), the canvas normaliser and the
    orientation merger ([merge_detection]), and the named-pipe session loop.

    Modelling choices.
    - Scores and box coordinates are numpy floats in the source.  Only their
      order and the products [coordinate * width] are used, so they are
      embedded as rationals [Q]; a NaN score fails [t[0] > 0.5] and is pruned
      before any sort sees it.
    - An image is its width and its rows of pixels (numpy shape [(h, w, _)]).
    - Python's [list.sort] is stable, also with [reverse=True]; it is embedded
      as a stable insertion sort, which yields the very same list.
    - The detection model, the screen grabber and the two OpenCV filters are
      parameters.  Model invocations, grabs and pipe writes are recorded in an
      explicit [world] that every effectful function threads. *)

From Stdlib Require Import ZArith QArith Qround Lqa Sorted Permutation Ascii String.
From stdpp Require Import gmap strings list sorting.

Local Open Scope Z_scope.

(** ** Images and detections *)

Definition pixel : Type := Z * Z * Z.

Record image := Image { width : Z; rows : list (list pixel) }.

Definition height (img : image) : Z := Z.of_nat (length (rows img)).

(** [box] is the model's [(yMin, xMin, yMax, xMax)], indices 0..3. *)
Record box := Box { yMin : Q; xMin : Q; yMax : Q; xMax : Q }.

(** A zipped triple [(score, box, classId)]: [t[0]], [t[1]], [t[2]]. *)
Definition detection : Type := Q * box * Z.

Definition score (t : detection) : Q := t.1.1.
Definition det_box (t : detection) : box := t.1.2.
Definition classId (t : detection) : Z := t.2.

(** [t[1:]] *)
Definition tail_of (t : detection) : box * Z := (det_box t, classId t).

(** ** Python primitives *)

Definition Qltb (x y : Q) : bool := negb (Qle_bool y x).

(** Normalisation of one bound of a slice [l[a:b]] over a sequence of length
    [n]: a negative bound counts from the end, and both are clamped. *)
Definition slice_bound (n i : Z) : Z :=
  if i <? 0 then Z.max 0 (i + n) else Z.min i n.

Definition slice_len (n a b : Z) : Z :=
  Z.max 0 (slice_bound n b - slice_bound n a).

Definition py_slice {A} (l : list A) (a b : Z) : list A :=
  let n := Z.of_nat (length l) in
  take (Z.to_nat (slice_len n a b)) (drop (Z.to_nat (slice_bound n a)) l).

(** [img[r0:r1, c0:c1]] *)
Definition crop (img : image) (r0 r1 c0 c1 : Z) : image :=
  {| width := slice_len (width img) c0 c1;
     rows := (λ row, py_slice row c0 c1) <$> py_slice (rows img) r0 r1 |}.

(** [int(round(q))]: round half to even. *)
Definition py_round (q : Q) : Z :=
  let f := Qfloor q in
  let r := (q - inject_Z f)%Q in
  if Qltb r (1 # 2) then f
  else if Qltb (1 # 2) r then f + 1
  else if Z.even f then f else f + 1.

(** [min(xs)] and [max(xs)] of a list of floats; [None] on the empty list,
    where Python raises. *)
Definition py_min (xs : list Q) : option Q :=
  match xs with
  | [] => None
  | x :: xs' => Some (foldl (λ m y, if Qltb y m then y else m) x xs')
  end.

Definition py_max (xs : list Q) : option Q :=
  match xs with
  | [] => None
  | x :: xs' => Some (foldl (λ m y, if Qltb m y then y else m) x xs')
  end.

(** ** Stable sorting

    [stable_sort ahead key l] sorts [l] so that an element whose key is
    strictly [ahead] of another's comes first, and elements that neither is
    ahead of keep the order they have in [l]. *)
Section stable_sort.
Context {A K : Type} (ahead : K → K → bool) (key : A → K).

Fixpoint insert_stable (x : A) (l : list A) : list A :=
  match l with
  | [] => [x]
  | y :: l' =>
      if ahead (key y) (key x) then y :: insert_stable x l'
      else x :: y :: l'
  end.

Definition stable_sort (l : list A) : list A := foldr insert_stable [] l.
End stable_sort.

(** [l.sort(key=key)] and [l.sort(key=key, reverse=True)] on float keys. *)
Definition sort_asc {A} (key : A → Q) : list A → list A :=
  stable_sort Qltb key.
Definition sort_desc {A} (key : A → Q) : list A → list A :=
  stable_sort (λ ky kx, Qltb kx ky) key.

(** ** Effects: exceptions and the recorded world *)

Inductive exn :=
  | KeyError_int (k : Z)
  | KeyError_str (k : string)
  | IndexError
  | ValueError.

(** The byte [b'\n'] that [PipeServer.write] appends to a message. *)
Definition LF : string := String "010"%char EmptyString.

Inductive pipe_event :=
  | WriteFile (message : string)
  | CloseHandle.

Record world := World {
  enabled : bool;              (* config.enabled, the process-wide toggle *)
  invoked : list image;        (* images the model was run on, oldest first *)
  grabbed : nat;               (* frames taken from the screen so far *)
  pipe : list pipe_event       (* what went to the pipe, oldest first *)
}.

Definition log_invocation (img : image) (w : world) : world :=
  {| enabled := enabled w; invoked := invoked w ++ [img];
     grabbed := grabbed w; pipe := pipe w |}.
Definition log_grab (w : world) : world :=
  {| enabled := enabled w; invoked := invoked w;
     grabbed := S (grabbed w); pipe := pipe w |}.
Definition log_pipe (e : pipe_event) (w : world) : world :=
  {| enabled := enabled w; invoked := invoked w;
     grabbed := grabbed w; pipe := pipe w ++ [e] |}.

Inductive result (A : Type) :=
  | Ok (a : A)
  | Raise (e : exn).
Arguments Ok {A} a.
Arguments Raise {A} e.

Definition M (A : Type) : Type := world → result A * world.

Definition ret {A} (a : A) : M A := λ w, (Ok a, w).
Definition raise {A} (e : exn) : M A := λ w, (Raise e, w).
Definition bind {A B} (m : M A) (k : A → M B) : M B :=
  λ w, match m w with
       | (Ok a, w') => k a w'
       | (Raise e, w') => (Raise e, w')
       end.

Notation "x ←ₘ m ; k" := (bind m (λ x, k))
  (at level 20, m at level 100, k at level 200, right associativity,
   format "x  ←ₘ  m ;  '/' k").
Notation "m ;;ₘ k" := (bind m (λ _, k))
  (at level 100, k at level 200, right associativity).

(** [d[k]] on a dict. *)
Definition getitem_int {V} (d : gmap Z V) (k : Z) : M V :=
  match d !! k with Some v => ret v | None => raise (KeyError_int k) end.
Definition getitem_str {V} (d : gmap string V) (k : string) : M V :=
  match d !! k with Some v => ret v | None => raise (KeyError_str k) end.

Definition of_option {A} (e : exn) (o : option A) : M A :=
  match o with Some a => ret a | None => raise e end.

(** A list comprehension whose element expression may raise. *)
Fixpoint mapM {A B} (f : A → M B) (l : list A) : M (list B) :=
  match l with
  | [] => ret []
  | x :: l' => y ←ₘ f x; ys ←ₘ mapM f l'; ret (y :: ys)
  end.

(** ** Box locator *)

(** The Tensorflow model: the zipped [(score, box, class)] triples of the
    detections it reports for an image. *)
Definition detector : Type := image → list detection.

Definition run_inference_for_single_image (model : detector) (img : image)
  : M (list detection) :=
  λ w, (Ok (model img), log_invocation img w).

Definition confident (t : detection) : bool := Qltb (1 # 2) (score t).

Definition sort_by_confidence (model : detector) (img : image)
  : M (list detection) :=
  zipped ←ₘ run_inference_for_single_image model img;
  let pruned := List.filter confident zipped in
  let pruned := sort_desc score pruned in
  let result := take 4 pruned in
  ret result.

Definition get_boxes (model : detector) (img : image) : M (list (box * Z)) :=
  zipped ←ₘ run_inference_for_single_image model img;
  let pruned := List.filter confident zipped in
  let pruned := sort_desc score pruned in
  let pruned := take 4 pruned in
  let boxes := tail_of <$> pruned in
  ret boxes.

(** ** Canvas normaliser *)

Definition black : pixel := (0, 0, 0).
Definition pad_height : Z := 384.
Definition pad_width : Z := 455.

(** [np.full((h, w, channels), fill)] *)
Definition full (h w : Z) (fill : pixel) : image :=
  {| width := w;
     rows := replicate (Z.to_nat h) (replicate (Z.to_nat w) fill) |}.

(** [canvas[y:y+h, x:x+w] = patch] for [patch] of shape [(h, w, _)] and
    [0 <= y], [0 <= x].  numpy refuses the assignment when the target slice
    cannot take the patch; [merge_detection] guards the only call by
    positive offsets, under which the slice has the patch's shape (lemma
    [offsets_fit] below). *)
Definition set_region (canvas : image) (y x : Z) (patch : image) : image :=
  let h := Z.to_nat (height patch) in
  let w := Z.to_nat (width patch) in
  let y := Z.to_nat y in
  let x := Z.to_nat x in
  {| width := width canvas;
     rows := take y (rows canvas)
             ++ zip_with (λ row prow, take x row ++ prow ++ drop (x + w) row)
                  (take h (drop y (rows canvas))) (rows patch)
             ++ drop (y + h) (rows canvas) |}.

Definition x_offset_of (rune_box : image) : Z := (pad_width - width rune_box) / 2.
Definition y_offset_of (rune_box : image) : Z := (pad_height - height rune_box) / 2.

(** Lines 146-153: pad the rune box with black borders. *)
Definition pad_rune_box (rune_box : image) : image :=
  let preprocessed := full pad_height pad_width black in
  let x_offset := x_offset_of rune_box in
  let y_offset := y_offset_of rune_box in
  if bool_decide (x_offset > 0) && bool_decide (y_offset > 0)
  then set_region preprocessed y_offset x_offset rune_box
  else preprocessed.

(** [cv2.rotate(img, cv2.ROTATE_90_COUNTERCLOCKWISE)]: row [i] of the result
    is column [w - 1 - i] of [img], read top to bottom. *)
Fixpoint columns (w : nat) (rs : list (list pixel)) : list (list pixel) :=
  match w with
  | O => []
  | S w' => omap head rs :: columns w' (tail <$> rs)
  end.

Definition rotate_ccw (img : image) : image :=
  {| width := height img;
     rows := reverse (columns (Z.to_nat (width img)) (rows img)) |}.

(** ** Orientation merger *)

Definition label_map : gmap Z string :=
  {[ 1 := "up"; 2 := "down"; 3 := "left"; 4 := "right" ]}.
Definition converter : gmap string string :=
  {[ "up" := "right"; "down" := "left" ]}.

(** One turn of the loop of lines 169-171 at index [i]; the state is the
    pair of lists the loop mutates. *)
Definition merge_step (st : list string * list string) (i : nat)
  : list string * list string :=
  let '(classes, rotated_classes) := st in
  match rotated_classes, classes !! i with
  | r :: rest, Some c =>
      if bool_decide (c ∈ ["left"; "right"]) then (<[i := r]> classes, rest)
      else st
  | _, _ => st
  end.

Definition merge_classes (classes rotated_classes : list string) : list string :=
  (foldl merge_step (classes, rotated_classes) (seq 0 (length classes))).1.

(** Lines 160-166, after the model has run on the rotated canvas. *)
Definition rotated_classes_of (lst : list detection) : M (list string) :=
  let lst := sort_desc (λ x, yMax (det_box x)) lst in
  mapM (λ item, l ←ₘ getitem_int label_map (classId item); getitem_str converter l)
       (List.filter (λ item, bool_decide (classId item ∈ [1; 2])) lst).

(** Lines 156-158, after the model has run on the canvas. *)
Definition upright_classes_of (lst : list detection) : M (list string) :=
  let lst := sort_asc (λ x, xMin (det_box x)) lst in
  mapM (λ item, getitem_int label_map (classId item)) lst.

(** Lines 135-143: the rectangle enclosing the boxes, cut out of [cannied]. *)
Definition rune_box_of (cannied : image) (boxes : list (box * Z)) : M image :=
  let height := height cannied in
  let width := width cannied in
  let y_mins := (λ b, yMin b.1) <$> boxes in
  let x_mins := (λ b, xMin b.1) <$> boxes in
  let y_maxes := (λ b, yMax b.1) <$> boxes in
  let x_maxes := (λ b, xMax b.1) <$> boxes in
  min_x ←ₘ of_option ValueError (py_min x_mins);
  max_x ←ₘ of_option ValueError (py_max x_maxes);
  min_y ←ₘ of_option ValueError (py_min y_mins);
  max_y ←ₘ of_option ValueError (py_max y_maxes);
  let left := py_round (min_x * inject_Z width) in
  let right := py_round (max_x * inject_Z width) in
  let top := py_round (min_y * inject_Z height) in
  let bottom := py_round (max_y * inject_Z height) in
  ret (crop cannied top bottom left right).

(** Modelled from the spec: the decorator [utils.run_if_enabled] of
    [src/common/utils.py], which is not among the sources.  The spec has the
    toggle [config.enabled] short-circuit the merger to an empty sequence
    without invoking the model. *)
Definition run_if_enabled {A} (function : M (list A)) : M (list A) :=
  λ w, if enabled w then function w else ret [] w.

Section pipeline.
(** The OpenCV filters of lines 20-47, taken as given. *)
Variables filter_color canny : image → image.

(** The body of [merge_detection] (lines 121-173). *)
Definition merge_detection_body (model : detector) (img : image)
  : M (list string) :=
  let classes := [] in
  let cropped := crop img 120 (height img / 2) (width img / 4) (3 * width img / 4) in
  let filtered := filter_color cropped in
  let cannied := canny filtered in
  boxes ←ₘ get_boxes model cannied;
  if bool_decide (length boxes = 4%nat) then
    rune_box ←ₘ rune_box_of cannied boxes;
    let preprocessed := pad_rune_box rune_box in
    lst ←ₘ sort_by_confidence model preprocessed;
    classes ←ₘ upright_classes_of lst;
    let rotated := rotate_ccw preprocessed in
    lst ←ₘ sort_by_confidence model rotated;
    rotated_classes ←ₘ rotated_classes_of lst;
    ret (merge_classes classes rotated_classes)
  else ret classes.

Definition merge_detection (model : detector) (img : image) : M (list string) :=
  run_if_enabled (merge_detection_body model img).

(** ** Session server *)

(** [sct.grab(monitor)]: the frame of the [k]-th grab. *)
Variable capture : nat → image.

Definition grab : M image := λ w, (Ok (capture (grabbed w)), log_grab w).

Definition max_attempts : Z := 100.

(** The inner [while True] of lines 223-238.  [fuel] bounds the number of
    turns; [None] is returned only when it runs out. *)
Fixpoint detect_loop (model : detector) (fuel : nat) (current_attempts : Z)
  : M (option (list string)) :=
  match fuel with
  | O => ret None
  | S fuel' =>
      frame ←ₘ grab;
      arrows ←ₘ merge_detection model frame;
      if bool_decide (length arrows = 4%nat) then ret (Some arrows)
      else if bool_decide (current_attempts < max_attempts)
           then detect_loop model fuel' (current_attempts + 1)
           else ret (Some arrows)
  end.

(** [arrow[0]] *)
Definition first_char (s : string) : M string :=
  match s with
  | EmptyString => raise IndexError
  | String c _ => ret (String c EmptyString)
  end.

Fixpoint append_first_chars (communication_string : string) (arrows : list string)
  : M string :=
  match arrows with
  | [] => ret communication_string
  | arrow :: rest =>
      c ←ₘ first_char arrow;
      append_first_chars (communication_string +:+ c) rest
  end.

(** [PipeServer.write] and [PipeServer.close]. *)
Definition pipe_write (message : string) : M unit :=
  λ w, (Ok (), log_pipe (WriteFile (message +:+ LF)) w).
Definition pipe_close : M unit := λ w, (Ok (), log_pipe CloseHandle w).

(** Lines 241-253. *)
Definition handle_results (arrows : list string) : M unit :=
  let communication_string := EmptyString in
  communication_string ←ₘ
    (if bool_decide (length arrows = 4%nat)
     then append_first_chars communication_string arrows
     else ret (communication_string +:+ "err"));
  pipe_write communication_string ;;ₘ
  pipe_write "Closing connection" ;;ₘ
  pipe_close.

(** One turn of the outer server loop, from an accepted connection to the
    closed pipe. *)
Definition session (model : detector) (fuel : nat) : M (option unit) :=
  found ←ₘ detect_loop model fuel 0;
  match found with
  | None => ret None
  | Some arrows => handle_results arrows ;;ₘ ret (Some ())
  end.
End pipeline.

(** ** Definitions used to state the properties *)

(** The list that lines 86-88 (and 104-106) compute from the zipped model
    output. *)
Definition top_four (zipped : list detection) : list detection :=
  take 4 (sort_desc score (List.filter confident zipped)).

Definition result_map {A B} (f : A → B) (r : result A) : result B :=
  match r with Ok a => Ok (f a) | Raise e => Raise e end.

(** A label the upright pass cannot be trusted on (line 170). *)
Definition ambiguous (c : string) : bool := bool_decide (c ∈ ["left"; "right"]).

(** The loop of lines 169-171 by recursion on [classes]; [merge_classes]
    computes the same list (lemma [merge_classes_reconcile]). *)
Fixpoint reconcile (classes rotated_classes : list string) : list string :=
  match classes, rotated_classes with
  | [], _ => []
  | _, [] => classes
  | c :: cs, r :: rest =>
      if ambiguous c then r :: reconcile cs rest
      else c :: reconcile cs rotated_classes
  end.

(** An image whose rows all have its width. *)
Definition wf_image (img : image) : Prop :=
  0 ≤ width img ∧ Forall (λ row, length row = Z.to_nat (width img)) (rows img).

(** [img[r, c]], when in range. *)
Definition pixel_at (img : image) (r c : nat) : option pixel :=
  rows img !! r ≫= (.!! c).

(** The outcome of a computation that neither reads nor changes the world
    (lemmas [pure_run] and the [_pure] lemmas below). *)
Definition run_pure {A} (m : M A) : result A :=
  (m {| enabled := true; invoked := []; grabbed := 0; pipe := [] |}).1.

Definition pure {A} (m : M A) : Prop := ∃ r, ∀ w, m w = (r, w).

(** The image the model first sees, and the boxes it finds there (lines
    126-133). *)
Definition cannied_of (filter_color canny : image → image) (img : image) : image :=
  canny (filter_color
    (crop img 120 (height img / 2) (width img / 4) (3 * width img / 4))).

Definition coarse_boxes (filter_color canny : image → image) (model : detector)
  (img : image) : list (box * Z) :=
  tail_of <$> top_four (model (cannied_of filter_color canny img)).

(** A class the label map knows. *)
Definition known_class (t : detection) : Prop := classId t ∈ [1; 2; 3; 4].

Definition direction (l : string) : Prop := l ∈ ["up"; "down"; "left"; "right"].

(** What the capture/detect cycle on the [k]-th grabbed frame yields, with
    the toggle at [en]. *)
Definition attempt (filter_color canny : image → image) (capture : nat → image)
  (model : detector) (en : bool) (k : nat) : result (list string) :=
  (merge_detection filter_color canny model (capture k)
     {| enabled := en; invoked := []; grabbed := 0; pipe := [] |}).1.

(** The first letter of a label, and the first line of the response. *)
Definition direction_code (l : string) : string := substring 0 1 l.

Definition response_line (arrows : list string) : string :=
  if decide (length arrows = 4%nat)
  then foldr (λ arrow line, direction_code arrow +:+ line) EmptyString arrows
  else "err".

(** ** Sample inputs *)

Definition det (s : Q) (b : box) (c : Z) : detection := (s, b, c).

(** A box of the middle band of the image, 0.15 wide, starting at [x0]. *)
Definition box_at (x0 : Q) : box :=
  {| yMin := 4 # 10; xMin := x0; yMax := 6 # 10; xMax := x0 + (15 # 100) |}.

(** Four arrows from left to right: up, left, down, right. *)
Definition four_arrows : list detection :=
  [ det (9 # 10) (box_at (20 # 100)) 1;
    det (8 # 10) (box_at (35 # 100)) 3;
    det (7 # 10) (box_at (50 # 100)) 2;
    det (6 # 10) (box_at (65 # 100)) 4 ].

(** A model that answers by the shape of what it is shown: [upright] on an
    image as wide as the canvas, [rotated] on one as wide as the canvas is
    high, [coarse] on anything else. *)
Definition by_width (coarse upright rotated : list detection) : detector :=
  λ img, if width img =? pad_width then upright
         else if width img =? pad_height then rotated
         else coarse.

(** A black 1366x768 frame, as the grabber's monitor region gives. *)
Definition black_frame : image := full 768 1366 black.

Definition fresh_world : world :=
  {| enabled := true; invoked := []; grabbed := 0; pipe := [] |}.

(** Two detections of the same score. *)
Definition tied_detections : list detection :=
  [ det (9 # 10) (box_at (20 # 100)) 1; det (9 # 10) (box_at (35 # 100)) 2 ].

(** A confident detection of a class that [label_map] does not have. *)
Definition stray_detection : detection := det (9 # 10) (box_at (20 # 100)) 7.

(** A rune box of 2 rows of 3 pixels, each pixel told apart by its value. *)
Definition small_rune_box : image :=
  {| width := 3;
     rows := [ [ (1, 1, 1); (2, 2, 2); (3, 3, 3) ];
               [ (4, 4, 4); (5, 5, 5); (6, 6, 6) ] ] |}.

Definition disabled_world : world :=
  {| enabled := false; invoked := []; grabbed := 0; pipe := [] |}.

(** Settles a decidable closed proposition by evaluating its decision. *)
Ltac by_evaluation := apply (bool_decide_unpack _); vm_compute; exact I.

(** ** The colour filter and the server loop *)

(** [cv2.inRange(hsv, (1, 100, 100), (75, 255, 255))] on one pixel: 255 when
    every channel lies within its bounds, both included, and 0 otherwise. *)
Definition inRange (p : pixel) : Z :=
  let '(h, s, v) := p in
  if (1 <=? h) && (h <=? 75) && (100 <=? s) && (s <=? 255)
     && (100 <=? v) && (v <=? 255)
  then 255 else 0.

(** A per-pixel operation over a whole array. *)
Definition map_pixels {A B} (f : A → B) (rs : list (list A)) : list (list B) :=
  (λ row : list A, f <$> row) <$> rs.

(** [target[mask] = source[mask]] for arrays of one shape. *)
Definition assign_where (target : list (list pixel)) (mask : list (list bool))
  (source : list (list pixel)) : list (list pixel) :=
  zip_with
    (λ (tm : list pixel * list bool) (srow : list pixel),
       zip_with (λ (am : pixel * bool) (p : pixel), if am.2 then p else am.1)
         (zip tm.1 tm.2) srow)
    (zip target mask) source.

(** [filter_color] (lines 32-47).  The conversion of one pixel from BGR to
    HSV, [cv2.cvtColor(_, cv2.COLOR_BGR2HSV)], is taken as given. *)
Definition filter_color (bgr2hsv : pixel → pixel) (img : image) : image :=
  let hsv := map_pixels bgr2hsv (rows img) in
  let mask := map_pixels inRange hsv in
  let color_mask := map_pixels (λ m, 0 <? m) mask in
  let arrows := map_pixels (λ _, black) (rows img) in
  {| width := width img;
     rows := assign_where arrows color_mask (rows img) |}.

(** [config.enabled = b] *)
Definition set_enabled (b : bool) : M unit :=
  λ w, (Ok (), {| enabled := b; invoked := invoked w;
                  grabbed := grabbed w; pipe := pipe w |}).

(** The outer [while True] of lines 212-253, for the first [connections]
    clients; [None] only when a session ran out of fuel. *)
Fixpoint serve (filter_color canny : image → image) (capture : nat → image)
  (model : detector) (fuel connections : nat) : M (option unit) :=
  match connections with
  | O => ret (Some ())
  | S connections' =>
      served ←ₘ session filter_color canny capture model fuel;
      match served with
      | None => ret None
      | Some _ => serve filter_color canny capture model fuel connections'
      end
  end.

(** The module from line 176 on: the toggle is set, one detection is run
    ahead of any client (lines 203-209), then the clients are served. *)
Definition main (filter_color canny : image → image) (capture : nat → image)
  (model : detector) (fuel connections : nat) : M (option unit) :=
  set_enabled true ;;ₘ
  frame ←ₘ grab capture;
  arrows ←ₘ merge_detection filter_color canny model frame;
  serve filter_color canny capture model fuel connections.

(** One response on the pipe. *)
Definition response (line : string) : list pipe_event :=
  [ WriteFile (line +:+ LF); WriteFile ("Closing connection" +:+ LF); CloseHandle ].

(** The lines a client can receive first: [err], or four letters of four
    directions. *)
Definition first_line (line : string) : Prop :=
  line = "err"
  ∨ ∃ arrows, Forall direction arrows ∧ length arrows = 4%nat
              ∧ line = response_line arrows.

(** * Properties *)

(** ** Rational comparisons *)

Lemma Qltb_lt (x y : Q) : Qltb x y = true ↔ (x < y)%Q.
Proof.
  unfold Qltb. rewrite negb_true_iff, <- not_true_iff_false, Qle_bool_iff.
  split; [apply Qnot_le_lt | apply Qlt_not_le].
Qed.

Lemma Qltb_ge (x y : Q) : Qltb x y = false ↔ (y <= x)%Q.
Proof. unfold Qltb. rewrite negb_false_iff. apply Qle_bool_iff. Qed.

(** ** The stable sort sorts *)

Section stable_sort_facts.
Context {A K : Type} (ahead : K → K → bool) (key : A → K).
(** [R] is the weak order the sort establishes between keys. *)
Context (R : K → K → Prop).
Hypothesis R_trans : ∀ a b c, R a b → R b c → R a c.
Hypothesis ahead_true : ∀ a b, ahead a b = true → R a b.
Hypothesis ahead_false : ∀ a b, ahead a b = false → R b a.

Local Abbreviation by_key := (λ x y : A, R (key x) (key y)).

Lemma insert_stable_Permutation x l : insert_stable ahead key x l ≡ₚ x :: l.
Proof.
  induction l as [|y l IH]; simpl; [done|].
  destruct (ahead (key y) (key x)); [|done].
  rewrite IH. apply Permutation_swap.
Qed.

Lemma stable_sort_Permutation l : stable_sort ahead key l ≡ₚ l.
Proof.
  induction l as [|x l IH]; simpl; [done|].
  by rewrite insert_stable_Permutation, IH.
Qed.

Lemma stable_sort_length l : length (stable_sort ahead key l) = length l.
Proof. by rewrite stable_sort_Permutation. Qed.

Lemma insert_stable_sorted x l :
  StronglySorted by_key l → StronglySorted by_key (insert_stable ahead key x l).
Proof.
  induction 1 as [|y l Hs IH Hy]; simpl.
  - repeat constructor.
  - destruct (ahead (key y) (key x)) eqn:E.
    + constructor; [done|].
      rewrite insert_stable_Permutation. constructor; [|done].
      by apply ahead_true.
    + apply ahead_false in E.
      constructor; [by constructor|].
      constructor; [done|].
      eapply Forall_impl; [exact Hy|]. intros z Hz. by eapply R_trans.
Qed.

Lemma stable_sort_sorted l : StronglySorted by_key (stable_sort ahead key l).
Proof.
  induction l as [|x l IH]; simpl; [constructor|].
  by apply insert_stable_sorted.
Qed.

(** Stability: two elements neither of which is ahead of the other come
    out in the order they went in. *)
Lemma insert_stable_filter (P : A → bool) x l :
  (∀ y, y ∈ l → P y = true → P x = true → ahead (key y) (key x) = false) →
  List.filter P (insert_stable ahead key x l) = List.filter P (x :: l).
Proof.
  induction l as [|y l IH]; intros Hties; [done|].
  cbn [insert_stable]. destruct (ahead (key y) (key x)) eqn:E; [|done].
  cbn [List.filter]. rewrite IH by (intros; apply Hties; [by right|done..]).
  cbn [List.filter].
  destruct (P y) eqn:Hy, (P x) eqn:Hx; try done.
  rewrite Hties in E; [done|by left|done..].
Qed.
End stable_sort_facts.

Lemma sort_desc_sorted {A} (key : A → Q) l :
  StronglySorted (λ x y, (key y <= key x)%Q) (sort_desc key l).
Proof.
  apply (stable_sort_sorted _ key (λ a b, (b <= a)%Q)).
  - intros a b c ??. by apply Qle_trans with b.
  - intros a b ?%Qltb_lt. by apply Qlt_le_weak.
  - by intros a b ?%Qltb_ge.
Qed.

Lemma sort_asc_sorted {A} (key : A → Q) l :
  StronglySorted (λ x y, (key x <= key y)%Q) (sort_asc key l).
Proof.
  apply (stable_sort_sorted _ key (λ a b, (a <= b)%Q)).
  - intros a b c ??. by apply Qle_trans with b.
  - intros a b ?%Qltb_lt. by apply Qlt_le_weak.
  - by intros a b ?%Qltb_ge.
Qed.

Lemma sort_desc_Permutation {A} (key : A → Q) l : sort_desc key l ≡ₚ l.
Proof. apply stable_sort_Permutation. Qed.

Lemma sort_asc_Permutation {A} (key : A → Q) l : sort_asc key l ≡ₚ l.
Proof. apply stable_sort_Permutation. Qed.

(** Detections that tie on the score keep the model's order. *)
Lemma sort_desc_stable {A} (key : A → Q) (q : Q) l :
  List.filter (λ x, Qeq_bool (key x) q) (sort_desc key l)
  = List.filter (λ x, Qeq_bool (key x) q) l.
Proof.
  induction l as [|x l IH]; [done|].
  change (sort_desc key (x :: l))
    with (insert_stable (λ ky kx, Qltb kx ky) key x (sort_desc key l)).
  rewrite insert_stable_filter.
  - cbn [List.filter]. by rewrite IH.
  - intros y _ Hy%Qeq_bool_iff Hx%Qeq_bool_iff. apply Qltb_ge.
    rewrite Hy, Hx. apply Qle_refl.
Qed.

(** ** Box locator *)

Lemma sort_by_confidence_run model img w :
  sort_by_confidence model img w = (Ok (top_four (model img)), log_invocation img w).
Proof. reflexivity. Qed.

Lemma get_boxes_run model img w :
  get_boxes model img w = (Ok (tail_of <$> top_four (model img)), log_invocation img w).
Proof. reflexivity. Qed.

Lemma confident_spec t : confident t = true ↔ (1 # 2 < score t)%Q.
Proof. apply Qltb_lt. Qed.

Lemma top_four_length zipped : (length (top_four zipped) ≤ 4)%nat.
Proof. unfold top_four. rewrite length_take. lia. Qed.

Lemma filter_confident zipped :
  Forall (λ t, (1 # 2 < score t)%Q) (List.filter confident zipped).
Proof.
  apply Forall_forall. intros t [_ Ht]%list_elem_of_In%filter_In.
  by apply confident_spec.
Qed.

Lemma top_four_confident zipped : Forall (λ t, (1 # 2 < score t)%Q) (top_four zipped).
Proof.
  apply Forall_take. rewrite sort_desc_Permutation. apply filter_confident.
Qed.

Lemma StronglySorted_take {A} (R : A → A → Prop) n l :
  StronglySorted R l → StronglySorted R (take n l).
Proof.
  intros Hl. rewrite <- (take_drop n l) in Hl.
  by apply StronglySorted_app_1_l in Hl.
Qed.

Lemma top_four_sorted zipped :
  StronglySorted (λ s t, (score t <= score s)%Q) (top_four zipped).
Proof. apply StronglySorted_take, sort_desc_sorted. Qed.

Lemma top_four_subseteq zipped : top_four zipped ⊆ zipped.
Proof.
  intros t Ht%subseteq_take. rewrite sort_desc_Permutation in Ht.
  by apply list_elem_of_In, filter_In in Ht as [?%list_elem_of_In _].
Qed.

(** C2, as amended: the detection set that [sort_by_confidence] returns is
    the first four (or fewer) entries of a rearrangement of the model's
    detections with score above 0.5 that is in non-increasing score order,
    the detections of equal score in the order the model gave them; so it
    has at most 4 elements, each of score above 0.5, in non-increasing score
    order.  [get_boxes] returns the boxes and classes of the same list. *)
Theorem sort_by_confidence_detection_set model img w :
  ∃ sorted ds,
    sort_by_confidence model img w = (Ok ds, log_invocation img w)
    ∧ get_boxes model img w = (Ok (tail_of <$> ds), log_invocation img w)
    ∧ sorted ≡ₚ List.filter confident (model img)
    ∧ StronglySorted (λ s t, (score t <= score s)%Q) sorted
    ∧ (∀ q, List.filter (λ t, Qeq_bool (score t) q) sorted
            = List.filter (λ t, Qeq_bool (score t) q) (List.filter confident (model img)))
    ∧ ds = take 4 sorted
    ∧ (length ds ≤ 4)%nat
    ∧ Forall (λ t, (1 # 2 < score t)%Q) ds
    ∧ StronglySorted (λ s t, (score t <= score s)%Q) ds.
Proof.
  exists (sort_desc score (List.filter confident (model img))), (top_four (model img)).
  split_and!; try done.
  - apply sort_desc_Permutation.
  - apply sort_desc_sorted.
  - intros q. apply sort_desc_stable.
  - apply top_four_length.
  - apply top_four_confident.
  - apply top_four_sorted.
Qed.

(** C9: [get_boxes] returns the [(box, classId)] parts, in order, of what
    [sort_by_confidence] returns on the same model and image, and leaves the
    same world behind. *)
Theorem get_boxes_of_sort_by_confidence model img w :
  get_boxes model img w
  = (result_map (fmap tail_of) (sort_by_confidence model img w).1,
     (sort_by_confidence model img w).2).
Proof. by rewrite get_boxes_run, sort_by_confidence_run. Qed.

(** ** Reconciliation *)

Lemma reconcile_nil_r classes : reconcile classes [] = classes.
Proof. by destruct classes. Qed.

Lemma merge_loop_from (pre cs rot : list string) :
  (foldl merge_step (pre ++ cs, rot) (seq (length pre) (length cs))).1
  = pre ++ reconcile cs rot.
Proof.
  revert pre rot. induction cs as [|c cs IH]; intros pre rot.
  - by destruct rot.
  - cbn [length seq foldl]. unfold merge_step at 2.
    rewrite list_lookup_middle by done.
    assert (Hnext : ∀ x, pre ++ x :: cs = (pre ++ [x]) ++ cs)
      by (intros; by rewrite <- app_assoc).
    assert (Hlen : ∀ x, S (length pre) = length (pre ++ [x]))
      by (intros; rewrite length_app; simpl; lia).
    destruct rot as [|r rest].
    + rewrite Hnext, (Hlen c), IH, reconcile_nil_r. by rewrite <- app_assoc.
    + cbn [reconcile]. fold (ambiguous c). destruct (ambiguous c).
      * rewrite insert_app_r_alt, Nat.sub_diag by done. cbn [insert list_insert].
        rewrite Hnext, (Hlen r), IH. by rewrite <- app_assoc.
      * rewrite Hnext, (Hlen c), IH. by rewrite <- app_assoc.
Qed.

Lemma merge_classes_reconcile classes rotated_classes :
  merge_classes classes rotated_classes = reconcile classes rotated_classes.
Proof. apply (merge_loop_from [] classes rotated_classes). Qed.

Lemma reconcile_length classes rotated_classes :
  length (reconcile classes rotated_classes) = length classes.
Proof.
  revert rotated_classes.
  induction classes as [|c cs IH]; intros [|r rest]; simpl; try done.
  destruct (ambiguous c); simpl; by rewrite IH.
Qed.

(** What ends up at index [i]: the label itself unless it is ambiguous, and
    then the element of [rotated_classes] whose index is the number of
    ambiguous labels before [i], if there is one. *)
Lemma reconcile_lookup classes rotated_classes i c :
  classes !! i = Some c →
  reconcile classes rotated_classes !! i
  = Some (if ambiguous c
          then default c (rotated_classes !! length (List.filter ambiguous (take i classes)))
          else c).
Proof.
  revert rotated_classes i.
  induction classes as [|c0 cs IH]; intros rot i Hi; [done|].
  destruct rot as [|r rest].
  { rewrite reconcile_nil_r, Hi. by destruct (ambiguous c). }
  destruct i as [|i]; simpl in Hi.
  - injection Hi as ->. simpl. by destruct (ambiguous c).
  - cbn [reconcile take List.filter]. destruct (ambiguous c0); simpl.
    + by rewrite (IH rest i Hi).
    + by rewrite (IH (r :: rest) i Hi).
Qed.

Lemma ambiguous_spec c : ambiguous c = true ↔ c ∈ ["left"; "right"].
Proof. unfold ambiguous. by rewrite bool_decide_eq_true. Qed.

Lemma up_down_not_ambiguous c : c ∈ ["up"; "down"] → ambiguous c = false.
Proof.
  intros Hc. apply not_true_iff_false. rewrite ambiguous_spec.
  rewrite !elem_of_cons, elem_of_nil in *.
  intros [->|[->|[]]]; destruct Hc as [?|[?|[]]]; discriminate.
Qed.

(** C3: reconciliation keeps the length and the positions; a position that
    holds up or down keeps its label; the positions that hold left or right
    take, from left to right, the successive elements of [rotated_classes]
    while there are any, and keep their label once these have run out;
    elements of [rotated_classes] beyond the number of such positions are
    not used.  When [rotated_classes] holds only left and right, as the
    converter yields, so does every such position afterwards.  This holds for
    a [classes] of any length, 4 included. *)
Theorem merge_classes_spec (classes rotated_classes : list string) :
  let out := merge_classes classes rotated_classes in
  length out = length classes
  ∧ (∀ i c, classes !! i = Some c → c ∈ ["up"; "down"] → out !! i = Some c)
  ∧ (∀ i c, classes !! i = Some c → c ∈ ["left"; "right"] →
       let k := length (List.filter ambiguous (take i classes)) in
       out !! i = Some (default c (rotated_classes !! k)))
  ∧ (Forall (λ r, r ∈ ["left"; "right"]) rotated_classes →
     ∀ i c, classes !! i = Some c → c ∈ ["left"; "right"] →
       ∃ c', out !! i = Some c' ∧ c' ∈ ["left"; "right"]).
Proof.
  cbv zeta. rewrite merge_classes_reconcile. split_and!.
  - apply reconcile_length.
  - intros i c Hi Hc. rewrite (reconcile_lookup _ _ _ _ Hi).
    by rewrite up_down_not_ambiguous.
  - intros i c Hi Hc%ambiguous_spec. rewrite (reconcile_lookup _ _ _ _ Hi).
    by rewrite Hc.
  - intros Hrot i c Hi Hc. rewrite (reconcile_lookup _ _ _ _ Hi).
    pose proof Hc as ->%ambiguous_spec. eexists; split; [done|].
    destruct (rotated_classes !! _) as [r|] eqn:Hr; simpl; [|done].
    eapply Forall_forall in Hrot; [done|]. by eapply list_elem_of_lookup_2.
Qed.

(** ** Comprehensions that do not raise *)

Lemma bind_Ok {A B} (m : M A) (k : A → M B) w a w' :
  m w = (Ok a, w') → bind m k w = k a w'.
Proof. unfold bind. by intros ->. Qed.

Lemma bind_Raise {A B} (m : M A) (k : A → M B) w e w' :
  m w = (Raise e, w') → bind m k w = (Raise e, w').
Proof. unfold bind. by intros ->. Qed.

Lemma mapM_Forall2 {A B} (f : A → M B) (P : A → B → Prop) l :
  (∀ x, x ∈ l → ∃ y, P x y ∧ ∀ w, f x w = (Ok y, w)) →
  ∃ ys, Forall2 P l ys ∧ ∀ w, mapM f l w = (Ok ys, w).
Proof.
  induction l as [|x l IH]; intros Hf.
  - exists []. by split; [constructor|].
  - destruct (Hf x) as (y & Hy & Hx); [by left|].
    destruct IH as (ys & Hys & Hl); [intros; apply Hf; by right|].
    exists (y :: ys). split; [by constructor|].
    intros w. cbn [mapM].
    rewrite (bind_Ok _ _ _ _ _ (Hx w)), (bind_Ok _ _ _ _ _ (Hl w)). done.
Qed.

(** ** Rotated pass *)

Lemma rotated_lookup k :
  k ∈ [1; 2] →
  ∃ l, ((k = 1 ∧ l = "right") ∨ (k = 2 ∧ l = "left"))
       ∧ ∀ w, bind (getitem_int label_map k) (getitem_str converter) w = (Ok l, w).
Proof.
  rewrite !elem_of_cons, elem_of_nil. intros [->|[->|[]]].
  - exists "right". split; [by left|]. by intros w; vm_compute.
  - exists "left". split; [by right|]. by intros w; vm_compute.
Qed.

Lemma rotated_classes_of_labels (lst : list detection) :
  ∃ labels,
    (∀ w, rotated_classes_of lst w = (Ok labels, w))
    ∧ Forall2 (λ t l, (classId t = 1 ∧ l = "right") ∨ (classId t = 2 ∧ l = "left"))
        (List.filter (λ item, bool_decide (classId item ∈ [1; 2]))
           (sort_desc (λ x, yMax (det_box x)) lst)) labels.
Proof.
  destruct (mapM_Forall2
    (λ item, bind (getitem_int label_map (classId item)) (getitem_str converter))
    (λ t l, (classId t = 1 ∧ l = "right") ∨ (classId t = 2 ∧ l = "left"))
    (List.filter (λ item, bool_decide (classId item ∈ [1; 2]))
       (sort_desc (λ x, yMax (det_box x)) lst))) as (labels & Hlabels & Hrun).
  { intros t [_ Ht]%list_elem_of_In%filter_In.
    apply bool_decide_eq_true in Ht.
    destruct (rotated_lookup _ Ht) as (l & Hl & Hw). eauto. }
  exists labels. split; [apply Hrun|done].
Qed.

Lemma rotated_classes_of_spec_aux (lst : list detection) :
  ∃ labels,
    (∀ w, rotated_classes_of lst w = (Ok labels, w)) ∧ Forall direction labels.
Proof.
  destruct (rotated_classes_of_labels lst) as (labels & Hrun & Hlabels).
  exists labels. split; [done|].
  eapply Forall2_Forall_r; [exact Hlabels|]. apply Forall_true.
  intros t l [[_ ->]|[_ ->]]; unfold direction; rewrite !elem_of_cons; tauto.
Qed.

(** C4: from the detections the model gave on the rotated canvas, the
    rotated pass keeps, in descending order of the box's yMax, exactly the
    entries of class 1 or 2, and yields for each the label right (class 1)
    or left (class 2); entries of another class yield nothing, and no lookup
    raises. *)
Theorem rotated_classes_of_spec (lst : list detection) (w : world) :
  ∃ sorted labels,
    sorted ≡ₚ lst
    ∧ StronglySorted (λ s t, (yMax (det_box t) <= yMax (det_box s))%Q) sorted
    ∧ rotated_classes_of lst w = (Ok labels, w)
    ∧ Forall2 (λ t l, (classId t = 1 ∧ l = "right") ∨ (classId t = 2 ∧ l = "left"))
        (List.filter (λ t, (classId t =? 1) || (classId t =? 2)) sorted) labels.
Proof.
  destruct (rotated_classes_of_labels lst) as (labels & Hrun & Hlabels).
  exists (sort_desc (λ x, yMax (det_box x)) lst), labels. split_and!.
  - apply sort_desc_Permutation.
  - apply (sort_desc_sorted (λ x, yMax (det_box x))).
  - apply Hrun.
  - erewrite filter_ext; [exact Hlabels|].
    intros t. apply eq_true_iff_eq.
    rewrite bool_decide_eq_true, orb_true_iff, !Z.eqb_eq.
    rewrite !elem_of_cons, elem_of_nil. tauto.
Qed.

(** ** Canvas normaliser *)

Section region.
Context (fill : pixel) (Hn Wn y x w : nat) (P : list (list pixel)).
Hypothesis P_rect : Forall (λ row, length row = w) P.
Hypothesis fits_y : (y + length P ≤ Hn)%nat.
Hypothesis fits_x : (x + w ≤ Wn)%nat.

Local Abbreviation R := (replicate Hn (replicate Wn fill)).
Local Abbreviation f := (λ row prow : list pixel, take x row ++ prow ++ drop (x + w) row).

Lemma region_rows :
  take y R ++ zip_with f (take (length P) (drop y R)) P ++ drop (y + length P) R
  = replicate y (replicate Wn fill)
    ++ ((λ prow, replicate x fill ++ prow ++ replicate (Wn - (x + w)) fill) <$> P)
    ++ replicate (Hn - (y + length P)) (replicate Wn fill).
Proof.
  rewrite take_replicate, !drop_replicate, take_replicate.
  rewrite zip_with_replicate_l by lia.
  rewrite take_replicate, drop_replicate.
  by replace (y `min` Hn)%nat with y by lia; replace (x `min` Wn)%nat with x by lia.
Qed.

Lemma region_row_lookup prow c :
  length prow = w → (c < Wn)%nat →
  (replicate x fill ++ prow ++ replicate (Wn - (x + w)) fill) !! c
  = if decide (x ≤ c < x + w)%nat then prow !! (c - x)%nat else Some fill.
Proof.
  intros Hlen Hc. case_decide as Hin.
  - rewrite lookup_app_r by (rewrite length_replicate; lia).
    rewrite length_replicate. apply lookup_app_l. lia.
  - destruct (decide (c < x)%nat).
    + rewrite lookup_app_l by (rewrite length_replicate; lia).
      apply lookup_replicate_2. lia.
    + rewrite lookup_app_r by (rewrite length_replicate; lia).
      rewrite length_replicate, lookup_app_r by lia.
      apply lookup_replicate_2. lia.
Qed.

Lemma region_lookup r c :
  (r < Hn)%nat → (c < Wn)%nat →
  (take y R ++ zip_with f (take (length P) (drop y R)) P ++ drop (y + length P) R)
    !! r ≫= (.!! c)
  = if decide ((y ≤ r < y + length P)%nat ∧ (x ≤ c < x + w)%nat)
    then P !! (r - y)%nat ≫= (.!! (c - x)%nat)
    else Some fill.
Proof.
  intros Hr Hc. rewrite region_rows.
  destruct (decide (y ≤ r < y + length P)%nat) as [Hin|Hout].
  - rewrite lookup_app_r by (rewrite length_replicate; lia).
    rewrite length_replicate, lookup_app_l by (rewrite length_fmap; lia).
    rewrite list_lookup_fmap.
    destruct (lookup_lt_is_Some_2 P (r - y)%nat) as [prow Hprow]; [lia|].
    rewrite Hprow. simpl.
    rewrite region_row_lookup; [|by eapply Forall_lookup_1 in P_rect|done].
    repeat case_decide; try done; tauto.
  - rewrite decide_False by tauto.
    destruct (decide (r < y)%nat).
    + rewrite lookup_app_l by (rewrite length_replicate; lia).
      rewrite lookup_replicate_2 by lia. simpl. by apply lookup_replicate_2.
    + rewrite lookup_app_r by (rewrite length_replicate; lia).
      rewrite length_replicate, lookup_app_r by (rewrite length_fmap; lia).
      rewrite length_fmap, lookup_replicate_2 by lia.
      simpl. by apply lookup_replicate_2.
Qed.

Lemma region_rect :
  Forall (λ row, length row = Wn)
    (take y R ++ zip_with f (take (length P) (drop y R)) P ++ drop (y + length P) R)
  ∧ length (take y R ++ zip_with f (take (length P) (drop y R)) P
            ++ drop (y + length P) R) = Hn.
Proof.
  rewrite region_rows. split.
  - rewrite !Forall_app, Forall_fmap. split_and!.
    + apply Forall_replicate, length_replicate.
    + eapply Forall_impl; [exact P_rect|]. intros row Hrow. simpl in *.
      rewrite !length_app, !length_replicate. lia.
    + apply Forall_replicate, length_replicate.
  - rewrite !length_app, length_fmap, !length_replicate. lia.
Qed.
End region.

(** Positive centring offsets leave room for the rune box on both sides. *)
Lemma offsets_fit rune_box :
  x_offset_of rune_box > 0 → y_offset_of rune_box > 0 →
  x_offset_of rune_box + width rune_box < pad_width
  ∧ y_offset_of rune_box + height rune_box < pad_height.
Proof.
  unfold x_offset_of, y_offset_of, pad_width, pad_height.
  intros Hx Hy. Z.div_mod_to_equations. lia.
Qed.

Lemma full_wf h w fill : 0 ≤ w → wf_image (full h w fill).
Proof.
  intros Hw. split; [done|]. simpl. apply Forall_replicate, length_replicate.
Qed.

Lemma wf_image_pixel img r c :
  wf_image img → (r < length (rows img))%nat → (c < Z.to_nat (width img))%nat →
  is_Some (pixel_at img r c).
Proof.
  intros [_ Hrect] Hr Hc. unfold pixel_at.
  destruct (lookup_lt_is_Some_2 (rows img) r Hr) as [row Hrow].
  rewrite Hrow. simpl. apply lookup_lt_is_Some_2.
  eapply Forall_lookup_1 in Hrect; [|done]. simpl in Hrect. lia.
Qed.

Lemma pad_rune_box_pasted rune_box :
  wf_image rune_box →
  x_offset_of rune_box > 0 → y_offset_of rune_box > 0 →
  pad_rune_box rune_box
  = set_region (full pad_height pad_width black)
      (y_offset_of rune_box) (x_offset_of rune_box) rune_box.
Proof.
  intros _ Hx Hy. unfold pad_rune_box.
  by rewrite !bool_decide_eq_true_2.
Qed.

Lemma pad_rune_box_black rune_box :
  ¬ (x_offset_of rune_box > 0 ∧ y_offset_of rune_box > 0) →
  pad_rune_box rune_box = full pad_height pad_width black.
Proof.
  intros Hno. unfold pad_rune_box.
  destruct (bool_decide (x_offset_of rune_box > 0)) eqn:Hx; [|done].
  destruct (bool_decide (y_offset_of rune_box > 0)) eqn:Hy; [|done].
  apply bool_decide_eq_true in Hx, Hy. tauto.
Qed.

(** C5: with the offsets [(455 - w) / 2] and [(384 - h) / 2], floored, of a
    rune box of [h] rows of [w] pixels: the canvas is always 384 rows of 455
    pixels; when both offsets are positive, the pixel of the canvas at row
    [y_offset + r], column [x_offset + c] is the pixel of the rune box at
    [(r, c)], and every pixel outside that rectangle is black; when an
    offset is zero or negative, the canvas is the all-black canvas, so
    nothing was pasted. *)
Theorem pad_rune_box_spec (rune_box : image) :
  wf_image rune_box →
  let x := Z.to_nat (x_offset_of rune_box) in
  let y := Z.to_nat (y_offset_of rune_box) in
  let h := length (rows rune_box) in
  let w := Z.to_nat (width rune_box) in
  let canvas := pad_rune_box rune_box in
  (width canvas = 455 ∧ height canvas = 384 ∧ wf_image canvas)
  ∧ (x_offset_of rune_box > 0 ∧ y_offset_of rune_box > 0 →
     (∀ r c, (r < 384)%nat → (c < 455)%nat →
        pixel_at canvas r c
        = if decide ((y ≤ r < y + h)%nat ∧ (x ≤ c < x + w)%nat)
          then pixel_at rune_box (r - y) (c - x)
          else Some black)
     ∧ (∀ r c, (r < h)%nat → (c < w)%nat →
        is_Some (pixel_at rune_box r c)
        ∧ pixel_at canvas (y + r) (x + c) = pixel_at rune_box r c))
  ∧ (¬ (x_offset_of rune_box > 0 ∧ y_offset_of rune_box > 0) →
     canvas = full 384 455 black).
Proof.
  intros Hwf. cbv zeta.
  assert (Hpasted : x_offset_of rune_box > 0 ∧ y_offset_of rune_box > 0 →
     ∀ r c, (r < 384)%nat → (c < 455)%nat →
        pixel_at (pad_rune_box rune_box) r c
        = if decide ((Z.to_nat (y_offset_of rune_box) ≤ r
                      < Z.to_nat (y_offset_of rune_box) + length (rows rune_box))%nat
                     ∧ (Z.to_nat (x_offset_of rune_box) ≤ c
                        < Z.to_nat (x_offset_of rune_box) + Z.to_nat (width rune_box))%nat)
          then pixel_at rune_box (r - Z.to_nat (y_offset_of rune_box))
                 (c - Z.to_nat (x_offset_of rune_box))
          else Some black).
  { intros [Hx Hy] r c Hr Hc.
    destruct (offsets_fit _ Hx Hy) as [Hfx Hfy].
    rewrite pad_rune_box_pasted by done.
    unfold pixel_at, set_region, full. cbn [rows width].
    unfold height. rewrite Nat2Z.id.
    destruct Hwf as [Hw Hrect].
    apply region_lookup; unfold height, pad_width, pad_height in *; try done; lia. }
  assert (Hshape : length (rows (pad_rune_box rune_box)) = Z.to_nat pad_height
                   ∧ Forall (λ row, length row = Z.to_nat pad_width)
                       (rows (pad_rune_box rune_box))).
  { destruct (decide (x_offset_of rune_box > 0 ∧ y_offset_of rune_box > 0))
      as [[Hx Hy]|Hno].
    - destruct (offsets_fit _ Hx Hy) as [Hfx Hfy].
      rewrite pad_rune_box_pasted by done.
      unfold set_region, full. cbn [rows width].
      unfold height. rewrite Nat2Z.id.
      destruct Hwf as [Hw Hrect].
      destruct (region_rect black (Z.to_nat pad_height) (Z.to_nat pad_width)
        (Z.to_nat (y_offset_of rune_box)) (Z.to_nat (x_offset_of rune_box))
        (Z.to_nat (width rune_box)) (rows rune_box) Hrect) as [Hrows Hlen];
        [unfold height, pad_height in *; lia|unfold pad_width in *; lia|].
      by split.
    - rewrite pad_rune_box_black by done. unfold full. cbn [rows].
      split; [apply length_replicate|apply Forall_replicate, length_replicate]. }
  assert (Hwidth : width (pad_rune_box rune_box) = pad_width).
  { unfold pad_rune_box. by case_match. }
  split_and!.
  - done.
  - unfold height. by rewrite (proj1 Hshape).
  - split; [by rewrite Hwidth|]. rewrite Hwidth. apply Hshape.
  - intros Hpos. split; [by apply Hpasted|].
    intros r c Hr Hc. split; [by apply wf_image_pixel|].
    destruct Hpos as [Hx Hy]. destruct (offsets_fit _ Hx Hy) as [Hfx Hfy].
    rewrite Hpasted by (unfold height, pad_height, pad_width in *; try done; lia).
    rewrite decide_True by lia. f_equal; lia.
  - apply pad_rune_box_black.
Qed.

(** ** Computations that leave the world alone *)

Lemma pure_run {A} (m : M A) w : pure m → m w = (run_pure m, w).
Proof. intros [r Hr]. unfold run_pure. by rewrite !Hr. Qed.

Lemma ret_pure {A} (a : A) : pure (ret a).
Proof. by exists (Ok a). Qed.

Lemma raise_pure {A} e : pure (@raise A e).
Proof. by exists (Raise e). Qed.

Lemma bind_pure {A B} (m : M A) (k : A → M B) :
  pure m → (∀ a, pure (k a)) → pure (bind m k).
Proof.
  intros [[a|e] Hm] Hk.
  - destruct (Hk a) as [r Hr]. exists r. intros w. unfold bind. by rewrite Hm.
  - exists (Raise e). intros w. unfold bind. by rewrite Hm.
Qed.

Lemma of_option_pure {A} e (o : option A) : pure (of_option e o).
Proof. destruct o; [apply ret_pure|apply raise_pure]. Qed.

Lemma getitem_int_pure {V} (d : gmap Z V) k : pure (getitem_int d k).
Proof. unfold getitem_int. destruct (d !! k); [apply ret_pure|apply raise_pure]. Qed.

Lemma getitem_str_pure {V} (d : gmap string V) k : pure (getitem_str d k).
Proof. unfold getitem_str. destruct (d !! k); [apply ret_pure|apply raise_pure]. Qed.

Lemma mapM_pure {A B} (f : A → M B) l : (∀ x, pure (f x)) → pure (mapM f l).
Proof.
  intros Hf. induction l as [|x l IH]; [apply ret_pure|].
  cbn [mapM]. apply bind_pure; [done|]. intros y.
  apply bind_pure; [done|]. intros ys. apply ret_pure.
Qed.

Lemma upright_classes_of_pure lst : pure (upright_classes_of lst).
Proof. apply mapM_pure. intros. apply getitem_int_pure. Qed.

Lemma rotated_classes_of_pure lst : pure (rotated_classes_of lst).
Proof.
  apply mapM_pure. intros.
  apply bind_pure; [apply getitem_int_pure|]. intros. apply getitem_str_pure.
Qed.

Lemma rune_box_of_pure cannied boxes : pure (rune_box_of cannied boxes).
Proof.
  unfold rune_box_of.
  repeat (apply bind_pure; [apply of_option_pure|]; intros ?).
  apply ret_pure.
Qed.

Lemma rune_box_of_total cannied boxes :
  boxes ≠ [] → ∃ rune_box, run_pure (rune_box_of cannied boxes) = Ok rune_box.
Proof.
  intros Hne. destruct boxes as [|b boxes]; [done|].
  unfold run_pure, rune_box_of. cbn [fmap list_fmap py_min py_max of_option].
  unfold bind, ret. cbn. eauto.
Qed.

(** ** Slices keep images rectangular *)

Lemma py_slice_length {A} (l : list A) a b :
  length (py_slice l a b) = Z.to_nat (slice_len (Z.of_nat (length l)) a b).
Proof.
  unfold py_slice. rewrite length_take, length_drop.
  unfold slice_len, slice_bound.
  destruct (a <? 0) eqn:Ha, (b <? 0) eqn:Hb; lia.
Qed.

Lemma py_slice_subseteq {A} (l : list A) a b : py_slice l a b ⊆ l.
Proof.
  unfold py_slice. intros x Hx%subseteq_take.
  by eapply subseteq_drop.
Qed.

Lemma crop_wf img r0 r1 c0 c1 : wf_image img → wf_image (crop img r0 r1 c0 c1).
Proof.
  intros [Hw Hrect]. split; [unfold crop, slice_len; simpl; lia|].
  unfold crop. cbn [rows width]. apply Forall_fmap, Forall_forall.
  intros row Hrow%py_slice_subseteq. simpl.
  rewrite py_slice_length. eapply Forall_forall in Hrect; [|done].
  simpl in Hrect. rewrite Hrect, Z2Nat.id; done.
Qed.

Lemma rune_box_of_wf cannied boxes rune_box :
  wf_image cannied → run_pure (rune_box_of cannied boxes) = Ok rune_box →
  wf_image rune_box.
Proof.
  intros Hwf. unfold run_pure, rune_box_of, bind, of_option, ret, raise.
  repeat case_match; simplify_eq/=; try done.
  intros [= <-]. by apply crop_wf.
Qed.

(** ** Upright pass *)

Lemma label_map_known k :
  k ∈ [1; 2; 3; 4] → ∃ l, label_map !! k = Some l ∧ direction l.
Proof.
  unfold direction. rewrite !elem_of_cons, elem_of_nil.
  intros [->|[->|[->|[->|[]]]]]; eexists; (split; [by vm_compute|]);
    rewrite !elem_of_cons; tauto.
Qed.

Lemma label_map_unknown k : k ∉ [1; 2; 3; 4] → label_map !! k = None.
Proof.
  rewrite !elem_of_cons, elem_of_nil. intros Hk. unfold label_map.
  rewrite !lookup_insert_ne by (intros <-; tauto).
  apply lookup_singleton_ne. intros <-; tauto.
Qed.

Lemma mapM_label_map lst :
  Forall known_class lst →
  ∃ cs, length cs = length lst ∧ Forall direction cs
        ∧ ∀ w, mapM (λ item, getitem_int label_map (classId item)) lst w = (Ok cs, w).
Proof.
  intros Hknown.
  destruct (mapM_Forall2 (λ item, getitem_int label_map (classId item))
              (λ _ l, direction l) lst) as (cs & Hcs & Hrun).
  { intros t Ht. eapply Forall_forall in Hknown; [|done].
    destruct (label_map_known _ Hknown) as (l & Hl & Hdir).
    exists l. split; [done|]. intros w. unfold getitem_int. by rewrite Hl. }
  exists cs. split_and!; [|by eapply Forall2_Forall_r, Forall_true|done].
  symmetry. by eapply Forall2_length.
Qed.

Lemma mapM_label_map_raise lst :
  ¬ Forall known_class lst →
  ∃ t, t ∈ lst ∧ ¬ known_class t
       ∧ ∀ w, mapM (λ item, getitem_int label_map (classId item)) lst w
              = (Raise (KeyError_int (classId t)), w).
Proof.
  induction lst as [|t lst IH]; intros Hbad; [by destruct Hbad|].
  destruct (decide (known_class t)) as [Hk|Hk].
  - destruct IH as (t' & Hin & Hbad' & Hrun).
    { intros Hall. apply Hbad. by constructor. }
    exists t'. split_and!; [by right|done|].
    destruct (label_map_known _ Hk) as (l & Hl & _).
    intros w. cbn [mapM]. unfold getitem_int at 1. rewrite Hl.
    unfold bind at 1. cbn. by rewrite (bind_Raise _ _ _ _ _ (Hrun w)).
  - exists t. split_and!; [by left|done|].
    intros w. cbn [mapM]. unfold getitem_int at 1.
    by rewrite (label_map_unknown _ Hk).
Qed.

Lemma upright_classes_of_known lst :
  Forall known_class lst →
  ∃ cs, length cs = length lst ∧ Forall direction cs
        ∧ run_pure (upright_classes_of lst) = Ok cs.
Proof.
  intros Hknown. unfold upright_classes_of.
  destruct (mapM_label_map (sort_asc (λ x, xMin (det_box x)) lst))
    as (cs & Hlen & Hdir & Hrun).
  { by rewrite sort_asc_Permutation. }
  exists cs. split_and!; [|done|].
  - by rewrite Hlen, sort_asc_Permutation.
  - unfold run_pure. by rewrite Hrun.
Qed.

Lemma upright_classes_of_unknown lst :
  ¬ Forall known_class lst →
  ∃ t, t ∈ lst ∧ ¬ known_class t
       ∧ run_pure (upright_classes_of lst) = Raise (KeyError_int (classId t)).
Proof.
  intros Hbad. unfold upright_classes_of.
  destruct (mapM_label_map_raise (sort_asc (λ x, xMin (det_box x)) lst))
    as (t & Hin & Hk & Hrun).
  { by rewrite sort_asc_Permutation. }
  exists t. split_and!; [|done|].
  - by rewrite sort_asc_Permutation in Hin.
  - unfold run_pure. by rewrite Hrun.
Qed.

Lemma rotated_classes_of_Ok lst :
  ∃ rc, run_pure (rotated_classes_of lst) = Ok rc ∧ Forall direction rc.
Proof.
  destruct (rotated_classes_of_spec_aux lst) as (rc & Hrun & Hdir).
  exists rc. split; [|done]. unfold run_pure. by rewrite Hrun.
Qed.

(** ** The merger, step by step *)

Section pipeline_facts.
Variables filter_color canny : image → image.
Variable model : detector.

Lemma merge_detection_body_run img w :
  let cannied := cannied_of filter_color canny img in
  let boxes := coarse_boxes filter_color canny model img in
  let w1 := log_invocation cannied w in
  merge_detection_body filter_color canny model img w =
    if bool_decide (length boxes = 4%nat) then
      match run_pure (rune_box_of cannied boxes) with
      | Raise e => (Raise e, w1)
      | Ok rune_box =>
          let canvas := pad_rune_box rune_box in
          let w2 := log_invocation canvas w1 in
          match run_pure (upright_classes_of (top_four (model canvas))) with
          | Raise e => (Raise e, w2)
          | Ok classes =>
              let w3 := log_invocation (rotate_ccw canvas) w2 in
              match run_pure (rotated_classes_of
                                (top_four (model (rotate_ccw canvas)))) with
              | Raise e => (Raise e, w3)
              | Ok rotated_classes =>
                  (Ok (merge_classes classes rotated_classes), w3)
              end
          end
      end
    else (Ok [], w1).
Proof.
  cbv zeta. unfold merge_detection_body.
  fold (cannied_of filter_color canny img).
  rewrite (bind_Ok _ _ _ _ _ (get_boxes_run _ _ _)).
  fold (coarse_boxes filter_color canny model img).
  case_bool_decide; [|done].
  unfold bind at 1. rewrite (pure_run _ _ (rune_box_of_pure _ _)).
  destruct (run_pure (rune_box_of _ _)) as [rune_box|e]; [|done].
  rewrite (bind_Ok _ _ _ _ _ (sort_by_confidence_run _ _ _)).
  unfold bind at 1. rewrite (pure_run _ _ (upright_classes_of_pure _)).
  destruct (run_pure (upright_classes_of _)) as [classes|e]; [|done].
  rewrite (bind_Ok _ _ _ _ _ (sort_by_confidence_run _ _ _)).
  unfold bind at 1. rewrite (pure_run _ _ (rotated_classes_of_pure _)).
  by destruct (run_pure (rotated_classes_of _)) as [rotated_classes|e].
Qed.

(** The three ways [merge_detection] can end. *)
Lemma merge_detection_cases img w :
  let cannied := cannied_of filter_color canny img in
  let boxes := coarse_boxes filter_color canny model img in
  let r := merge_detection filter_color canny model img w in
  (enabled w = false ∧ r = (Ok [], w))
  ∨ (enabled w = true ∧ length boxes ≠ 4%nat
     ∧ r = (Ok [], log_invocation cannied w))
  ∨ (enabled w = true ∧ length boxes = 4%nat
     ∧ ∃ rune_box,
         run_pure (rune_box_of cannied boxes) = Ok rune_box
         ∧ let canvas := pad_rune_box rune_box in
           let upright := top_four (model canvas) in
           let w2 := log_invocation canvas (log_invocation cannied w) in
           (Forall known_class upright
            ∧ ∃ classes rotated_classes,
                length classes = length upright
                ∧ Forall direction classes ∧ Forall direction rotated_classes
                ∧ run_pure (upright_classes_of upright) = Ok classes
                ∧ run_pure (rotated_classes_of (top_four (model (rotate_ccw canvas))))
                  = Ok rotated_classes
                ∧ r = (Ok (merge_classes classes rotated_classes),
                       log_invocation (rotate_ccw canvas) w2))
           ∨ (¬ Forall known_class upright
              ∧ ∃ t, t ∈ upright ∧ ¬ known_class t
                     ∧ r = (Raise (KeyError_int (classId t)), w2))).
Proof.
  cbv zeta. unfold merge_detection, run_if_enabled.
  destruct (enabled w) eqn:Hen; [right|by left].
  rewrite merge_detection_body_run.
  case_bool_decide as Hlen; [right|by left].
  split_and!; [done..|].
  destruct (rune_box_of_total (cannied_of filter_color canny img)
              (coarse_boxes filter_color canny model img)) as [rune_box Hrb].
  { intros Hnil. by rewrite Hnil in Hlen. }
  exists rune_box. split; [done|]. rewrite Hrb. cbv zeta.
  destruct (decide (Forall known_class (top_four (model (pad_rune_box rune_box)))))
    as [Hk|Hk]; [left|right]; (split; [done|]).
  - destruct (upright_classes_of_known _ Hk) as (classes & Hl & Hdir & Hrun).
    destruct (rotated_classes_of_Ok
                (top_four (model (rotate_ccw (pad_rune_box rune_box)))))
      as (rc & Hrc & Hrcdir).
    exists classes, rc. rewrite Hrun, Hrc. by split_and!.
  - destruct (upright_classes_of_unknown _ Hk) as (t & Hin & Hbad & Hrun).
    exists t. rewrite Hrun. by split_and!.
Qed.
End pipeline_facts.

(** ** Results of the merger *)

Lemma reconcile_direction classes rotated_classes :
  Forall direction classes → Forall direction rotated_classes →
  Forall direction (reconcile classes rotated_classes).
Proof.
  intros Hc. revert rotated_classes.
  induction Hc as [|c cs Hd Hcs IH]; intros [|r rest] Hr; simpl.
  - constructor.
  - constructor.
  - by constructor.
  - inversion Hr; subst.
    destruct (ambiguous c); constructor; try done; by apply IH.
Qed.

Lemma merge_detection_directions filter_color canny model img w arrows :
  (merge_detection filter_color canny model img w).1 = Ok arrows →
  Forall direction arrows.
Proof.
  destruct (merge_detection_cases filter_color canny model img w)
    as [[_ ->]|[(_ & _ & ->)|(_ & _ & rb & _ & [(_ & H)|(_ & H)])]].
  - by intros [= <-].
  - by intros [= <-].
  - destruct H as (classes & rc & _ & Hc & Hrc & _ & _ & ->).
    intros [= <-]. rewrite merge_classes_reconcile.
    by apply reconcile_direction.
  - by destruct H as (t & _ & _ & ->).
Qed.

(** C1, as amended: the sequence [merge_detection] returns has at most 4
    labels.  It is empty when the toggle is off or when the first pass, on
    the filtered crop, does not give exactly 4 boxes.  Otherwise it has one
    label for every detection of the upright pass on the canvas, whose
    number, anything from 0 to 4, is not checked.  When no sequence is
    returned, a [label_map] lookup has raised. *)
Theorem merge_detection_length filter_color canny model img w :
  let cannied := cannied_of filter_color canny img in
  let boxes := coarse_boxes filter_color canny model img in
  match (merge_detection filter_color canny model img w).1 with
  | Ok arrows =>
      (length arrows ≤ 4)%nat
      ∧ (enabled w = false ∨ length boxes ≠ 4%nat → arrows = [])
      ∧ (enabled w = true → length boxes = 4%nat →
         ∃ rune_box,
           run_pure (rune_box_of cannied boxes) = Ok rune_box
           ∧ length arrows = length (top_four (model (pad_rune_box rune_box))))
  | Raise e =>
      enabled w = true ∧ length boxes = 4%nat ∧ ∃ k, e = KeyError_int k
  end.
Proof.
  cbv zeta.
  destruct (merge_detection_cases filter_color canny model img w)
    as [[Hen ->]|[(Hen & Hlen & ->)|(Hen & Hlen & rb & Hrb & [(_ & H)|(_ & H)])]];
    cbn [fst].
  - split_and!; [simpl; lia|done|congruence].
  - split_and!; [simpl; lia|done|congruence].
  - destruct H as (classes & rc & Hl & _ & _ & _ & _ & ->). cbn [fst].
    rewrite merge_classes_reconcile, reconcile_length, Hl.
    split_and!.
    + apply top_four_length.
    + intros [?|?]; congruence.
    + intros _ _. by exists rb.
  - destruct H as (t & _ & _ & ->). cbn [fst]. eauto.
Qed.

(** C8: with the toggle off, [merge_detection] returns the empty sequence
    and leaves the world as it was: the model has not been invoked. *)
Theorem merge_detection_disabled filter_color canny model img w :
  enabled w = false →
  merge_detection filter_color canny model img w = (Ok [], w).
Proof. intros Hen. unfold merge_detection, run_if_enabled. by rewrite Hen. Qed.

(** C10, as amended: [merge_detection] returns a sequence when the toggle
    is off, when the first pass does not give 4 boxes, and when every
    detection that the upright pass keeps on the canvas has a class among
    1, 2, 3, 4; when the upright pass keeps a detection of another class,
    the [label_map] lookup raises [KeyError] on such a class.  What the
    rotated pass keeps has no part in it: its entries of a class other than
    1 and 2 are dropped before any lookup. *)
Theorem merge_detection_raises filter_color canny model img w :
  let cannied := cannied_of filter_color canny img in
  let boxes := coarse_boxes filter_color canny model img in
  let r := (merge_detection filter_color canny model img w).1 in
  (enabled w = false ∨ length boxes ≠ 4%nat → r = Ok [])
  ∧ (enabled w = true → length boxes = 4%nat →
     ∃ rune_box,
       run_pure (rune_box_of cannied boxes) = Ok rune_box
       ∧ let upright := top_four (model (pad_rune_box rune_box)) in
         (Forall known_class upright → ∃ arrows, r = Ok arrows)
         ∧ (¬ Forall known_class upright →
            ∃ t, t ∈ upright ∧ ¬ known_class t
                 ∧ r = Raise (KeyError_int (classId t)))).
Proof.
  cbv zeta.
  destruct (merge_detection_cases filter_color canny model img w)
    as [[Hen ->]|[(Hen & Hlen & ->)|(Hen & Hlen & rb & Hrb & H)]]; cbn [fst].
  - split; [done|congruence].
  - split; [done|congruence].
  - split; [intros [?|?]; congruence|].
    intros _ _. exists rb. split; [done|].
    destruct H as [(Hk & classes & rc & _ & _ & _ & _ & _ & ->)
                  |(Hk & t & Hin & Hbad & ->)]; cbn [fst].
    + split; [eauto|done].
    + split; [done|eauto].
Qed.

(** ** Retry loop *)

Section session_facts.
Variables filter_color canny : image → image.
Variable capture : nat → image.
Variable model : detector.

Lemma merge_detection_world img w :
  let r := merge_detection filter_color canny model img w in
  r.1 = (merge_detection filter_color canny model img
           {| enabled := enabled w; invoked := []; grabbed := 0; pipe := [] |}).1
  ∧ enabled r.2 = enabled w ∧ grabbed r.2 = grabbed w ∧ pipe r.2 = pipe w.
Proof.
  cbv zeta. unfold merge_detection, run_if_enabled. cbn [enabled].
  destruct (enabled w) eqn:Hen; [|by cbn].
  rewrite !merge_detection_body_run. cbv zeta.
  case_bool_decide; [|by cbn].
  destruct (run_pure (rune_box_of _ _)); [|by cbn].
  destruct (run_pure (upright_classes_of _)); [|by cbn].
  destruct (run_pure (rotated_classes_of _)); by cbn.
Qed.

Lemma detect_loop_step fuel a w :
  detect_loop filter_color canny capture model (S fuel) a w
  = match merge_detection filter_color canny model (capture (grabbed w)) (log_grab w) with
    | (Ok arrows, w2) =>
        if bool_decide (length arrows = 4%nat) then (Ok (Some arrows), w2)
        else if bool_decide (a < max_attempts)
             then detect_loop filter_color canny capture model fuel (a + 1) w2
             else (Ok (Some arrows), w2)
    | (Raise e, w2) => (Raise e, w2)
    end.
Proof.
  cbn [detect_loop]. unfold bind, grab.
  destruct (merge_detection _ _ _ _ _) as [[arrows|e] w2]; [|done].
  by repeat case_bool_decide.
Qed.

Lemma detect_loop_from fuel a w :
  0 ≤ a ≤ max_attempts → (Z.to_nat (max_attempts + 1 - a) ≤ fuel)%nat →
  let r := detect_loop filter_color canny capture model fuel a w in
  let n := (grabbed r.2 - grabbed w)%nat in
  (1 ≤ n ≤ Z.to_nat (max_attempts + 1 - a))%nat
  ∧ (∀ j, (j < n - 1)%nat →
       ∃ arrows, attempt filter_color canny capture model (enabled w) (grabbed w + j)
                 = Ok arrows ∧ length arrows ≠ 4%nat)
  ∧ match attempt filter_color canny capture model (enabled w) (grabbed w + (n - 1)) with
    | Raise e => r.1 = Raise e
    | Ok arrows =>
        r.1 = Ok (Some arrows)
        ∧ (length arrows = 4%nat ∨ n = Z.to_nat (max_attempts + 1 - a))
    end.
Proof.
  revert a w.
  induction fuel as [|fuel IH]; intros a w Ha Hfuel;
    [unfold max_attempts in *; lia|].
  cbv zeta. rewrite detect_loop_step.
  destruct (merge_detection_world (capture (grabbed w)) (log_grab w))
    as (Hres & Hen & Hgr & _).
  change (enabled (log_grab w)) with (enabled w) in Hres, Hen.
  change (grabbed (log_grab w)) with (S (grabbed w)) in Hgr.
  fold (attempt filter_color canny capture model (enabled w) (grabbed w)) in Hres.
  assert (Hone : ∀ r : result (option (list string)) * world,
            grabbed r.2 = S (grabbed w) →
            match attempt filter_color canny capture model (enabled w) (grabbed w) with
            | Raise e => r.1 = Raise e
            | Ok arrows =>
                r.1 = Ok (Some arrows)
                ∧ (length arrows = 4%nat
                   ∨ 1%nat = Z.to_nat (max_attempts + 1 - a))
            end →
            (1 ≤ grabbed r.2 - grabbed w ≤ Z.to_nat (max_attempts + 1 - a))%nat
            ∧ (∀ j, (j < grabbed r.2 - grabbed w - 1)%nat →
                 ∃ arrows, attempt filter_color canny capture model (enabled w)
                             (grabbed w + j) = Ok arrows ∧ length arrows ≠ 4%nat)
            ∧ match attempt filter_color canny capture model (enabled w)
                      (grabbed w + (grabbed r.2 - grabbed w - 1)) with
              | Raise e => r.1 = Raise e
              | Ok arrows =>
                  r.1 = Ok (Some arrows)
                  ∧ (length arrows = 4%nat
                     ∨ (grabbed r.2 - grabbed w)%nat = Z.to_nat (max_attempts + 1 - a))
              end).
  { intros r Hr Hlast. rewrite Hr.
    replace (S (grabbed w) - grabbed w)%nat with 1%nat by lia.
    replace (grabbed w + (1 - 1))%nat with (grabbed w) by lia.
    split_and!; [unfold max_attempts in *; lia..|intros; lia|done]. }
  destruct (merge_detection filter_color canny model (capture (grabbed w)) (log_grab w))
    as [[arrows|e] w2]; cbn [fst snd] in *.
  - case_bool_decide as Hlen; [|case_bool_decide as Hatt].
    + apply (Hone (Ok (Some arrows), w2)); [done|].
      rewrite <- Hres. by split; [|left].
    + destruct (IH (a + 1) w2) as (Hn & Hbefore & Hlast);
        [unfold max_attempts in *; lia..|].
      set (r := detect_loop filter_color canny capture model fuel (a + 1) w2) in *.
      rewrite Hgr, Hen in *.
      split_and!; [unfold max_attempts in *; lia..| |].
      * intros [|j] Hj.
        -- exists arrows. by rewrite Nat.add_0_r, <- Hres.
        -- destruct (Hbefore j) as (arrows' & Hj' & Hlen'); [lia|].
           exists arrows'. split; [|done].
           by replace (grabbed w + S j)%nat with (S (grabbed w) + j)%nat by lia.
      * replace (grabbed w + (grabbed r.2 - grabbed w - 1))%nat
          with (S (grabbed w) + (grabbed r.2 - S (grabbed w) - 1))%nat by lia.
        clear Hone Hres Hbefore. revert Hlast.
        destruct (attempt _ _ _ _ _ _) as [arrows'|e]; [|done].
        intros [Hr [?|Hn']]; (split; [done|]); [by left|right].
        unfold max_attempts in *. lia.
    + apply (Hone (Ok (Some arrows), w2)); [done|].
      rewrite <- Hres. split; [done|right].
      unfold max_attempts in *. lia.
  - apply (Hone (Raise e, w2)); [done|]. by rewrite <- Hres.
Qed.

Lemma detect_loop_pipe fuel a w :
  pipe (detect_loop filter_color canny capture model fuel a w).2 = pipe w.
Proof.
  revert a w. induction fuel as [|fuel IH]; intros a w; [done|].
  rewrite detect_loop_step.
  destruct (merge_detection_world (capture (grabbed w)) (log_grab w))
    as (_ & _ & _ & Hpipe).
  destruct (merge_detection _ _ _ _ _) as [[arrows|e] w2]; cbn [snd] in *; [|done].
  repeat case_bool_decide; try done. by rewrite IH.
Qed.

(** C6: given fuel for 101 turns or more, the retry loop ends after [n]
    capture/detect cycles with [1 <= n <= 101]: every cycle before the last
    gave a sequence whose length is not 4; if the last cycle gave a sequence,
    that sequence is the loop's result, and either its length is 4 or it is
    the 101st cycle; if the last cycle raised, the exception is the loop's
    result.  The fuel never runs out. *)
Theorem detect_loop_terminates fuel w :
  (101 ≤ fuel)%nat →
  let r := detect_loop filter_color canny capture model fuel 0 w in
  let n := (grabbed r.2 - grabbed w)%nat in
  (1 ≤ n ≤ 101)%nat
  ∧ r.1 ≠ Ok None
  ∧ (∀ j, (j < n - 1)%nat →
       ∃ arrows, attempt filter_color canny capture model (enabled w) (grabbed w + j)
                 = Ok arrows ∧ length arrows ≠ 4%nat)
  ∧ match attempt filter_color canny capture model (enabled w) (grabbed w + (n - 1)) with
    | Raise e => r.1 = Raise e
    | Ok arrows =>
        r.1 = Ok (Some arrows) ∧ (length arrows = 4%nat ∨ n = 101%nat)
    end.
Proof.
  intros Hfuel.
  destruct (detect_loop_from fuel 0 w) as (Hn & Hbefore & Hlast);
    [unfold max_attempts; lia..|].
  cbv zeta. unfold max_attempts in *.
  change (Z.to_nat (100 + 1 - 0)) with 101%nat in *.
  split_and!; [lia|lia| |done|done].
  destruct (attempt _ _ _ _ _ _); [destruct Hlast as [-> _]|rewrite Hlast]; done.
Qed.
End session_facts.

(** ** Response *)

Lemma string_app_assoc (s1 s2 s3 : string) : (s1 +:+ s2) +:+ s3 = s1 +:+ (s2 +:+ s3).
Proof.
  induction s1 as [|a s1 IH]; [done|].
  change (String a ((s1 +:+ s2) +:+ s3) = String a (s1 +:+ (s2 +:+ s3))).
  by rewrite IH.
Qed.

Lemma string_app_nil_r (s : string) : s +:+ EmptyString = s.
Proof.
  induction s as [|a s IH]; [done|].
  change (String a (s +:+ EmptyString) = String a s). by rewrite IH.
Qed.

Lemma first_char_direction arrow :
  direction arrow → ∀ w, first_char arrow w = (Ok (direction_code arrow), w).
Proof.
  unfold direction. rewrite !elem_of_cons, elem_of_nil.
  by intros [->|[->|[->|[->|[]]]]].
Qed.

Lemma append_first_chars_run communication_string arrows :
  Forall direction arrows →
  ∀ w, append_first_chars communication_string arrows w
       = (Ok (communication_string
              +:+ foldr (λ arrow line, direction_code arrow +:+ line) EmptyString arrows),
          w).
Proof.
  intros Hdir. revert communication_string.
  induction Hdir as [|arrow arrows Harrow _ IH]; intros acc w.
  - cbn [append_first_chars foldr]. by rewrite string_app_nil_r.
  - cbn [append_first_chars foldr].
    rewrite (bind_Ok _ _ _ _ _ (first_char_direction _ Harrow w)).
    by rewrite IH, string_app_assoc.
Qed.

(** What [handle_results] does to the world, with the line as the code
    builds it. *)
Lemma handle_results_run (arrows : list string) (w : world) :
  Forall direction arrows →
  handle_results arrows w
  = (Ok (),
     log_pipe CloseHandle
       (log_pipe (WriteFile ("Closing connection" +:+ LF))
          (log_pipe
             (WriteFile
                ((if bool_decide (length arrows = 4%nat)
                  then EmptyString
                       +:+ foldr (λ arrow line, direction_code arrow +:+ line)
                             EmptyString arrows
                  else EmptyString +:+ "err") +:+ LF)) w))).
Proof.
  intros Hdir. unfold handle_results.
  case_bool_decide as Hlen.
  - by rewrite (bind_Ok _ _ _ _ _ (append_first_chars_run EmptyString _ Hdir w)).
  - done.
Qed.

(** C7: for a final sequence of direction labels, the response is exactly
    two messages and the closing of the pipe, in this order: the first
    letters of the labels, concatenated, when the sequence has length 4, and
    [err] for any other length; then the fixed line [Closing connection].
    Each message ends with a line feed; nothing else changes. *)
Theorem handle_results_two_lines (arrows : list string) (w : world) :
  Forall direction arrows →
  handle_results arrows w
  = (Ok (),
     {| enabled := enabled w; invoked := invoked w; grabbed := grabbed w;
        pipe := pipe w ++ [ WriteFile (response_line arrows +:+ LF);
                            WriteFile ("Closing connection" +:+ LF);
                            CloseHandle ] |}).
Proof.
  intros Hdir. rewrite handle_results_run by done.
  unfold log_pipe, response_line. cbn [enabled invoked grabbed pipe].
  rewrite <- !app_assoc. cbn [app].
  case_bool_decide as Hlen.
  - by rewrite decide_True.
  - by rewrite decide_False.
Qed.

(** The whole session, for later reference: with fuel for 101 turns, a
    session whose detection does not raise writes the two lines and closes
    the pipe. *)
Lemma session_writes filter_color canny capture model fuel w :
  (101 ≤ fuel)%nat →
  match (session filter_color canny capture model fuel w).1 with
  | Ok None => False
  | Ok (Some _) =>
      ∃ arrows,
        Forall direction arrows
        ∧ pipe (session filter_color canny capture model fuel w).2
          = pipe w ++ [ WriteFile (response_line arrows +:+ LF);
                        WriteFile ("Closing connection" +:+ LF);
                        CloseHandle ]
  | Raise e => pipe (session filter_color canny capture model fuel w).2 = pipe w
  end.
Proof.
  intros Hfuel. unfold session, bind.
  destruct (detect_loop_from filter_color canny capture model fuel 0 w)
    as (Hn & _ & Hlast); [unfold max_attempts; lia..|].
  pose proof (detect_loop_pipe filter_color canny capture model fuel 0 w) as Hpipe.
  destruct (detect_loop filter_color canny capture model fuel 0 w)
    as [[[arrows|]|e] w'] eqn:Hloop; cbn [fst snd] in *.
  - assert (Hdir : Forall direction arrows).
    { destruct (attempt _ _ _ _ _ _) as [arrows'|e'] eqn:Hatt; [|done].
      destruct Hlast as [[= <-] _].
      by eapply merge_detection_directions. }
    rewrite (handle_results_run _ _ Hdir). cbn [fst snd ret].
    exists arrows. unfold log_pipe, response_line. cbn [pipe].
    rewrite Hpipe, <- !app_assoc. cbn [app].
    case_bool_decide; [by rewrite decide_True|by rewrite decide_False].
  - destruct (attempt _ _ _ _ _ _); [by destruct Hlast as [[=] _]|done].
  - done.
Qed.

(** * Worked inputs *)

(** C1, counterexample: on a black frame, with a model that reports the four
    arrows on the filtered crop but only two of them on the canvas (and none
    on the rotated canvas), [merge_detection] returns two labels. *)
Lemma merge_detection_partial_sequence :
  let model := by_width four_arrows (take 2 four_arrows) [] in
  let r := merge_detection id id model black_frame fresh_world in
  r.1 = Ok ["up"; "left"]
  ∧ (λ img, top_four (model img)) <$> invoked r.2
    = [four_arrows; take 2 four_arrows; []]
  ∧ length ["up"; "left"] ≠ 0%nat ∧ length ["up"; "left"] ≠ 4%nat.
Proof. cbv zeta. split_and!; [by vm_compute..|done|done]. Qed.

(** C2, counterexample: two detections of equal score come back in the
    model's order, which is not a strictly descending one. *)
Lemma sort_by_confidence_ties :
  (sort_by_confidence (λ _, tied_detections) black_frame fresh_world).1
  = Ok tied_detections
  ∧ ¬ StronglySorted (λ s t, (score t < score s)%Q) tied_detections.
Proof.
  split; [by vm_compute|].
  intros Hsorted. apply StronglySorted_inv in Hsorted as [_ Hfirst].
  apply Forall_inv in Hfirst. by vm_compute in Hfirst.
Qed.

(** C10, counterexample: the third invocation, on the rotated canvas, keeps
    a confident detection of class 7, and [merge_detection] returns the four
    labels of the upright pass all the same. *)
Lemma merge_detection_stray_rotated :
  let model := by_width four_arrows four_arrows [stray_detection] in
  let r := merge_detection id id model black_frame fresh_world in
  r.1 = Ok ["up"; "left"; "down"; "right"]
  ∧ (λ img, top_four (model img)) <$> invoked r.2
    = [four_arrows; four_arrows; [stray_detection]]
  ∧ confident stray_detection = true
  ∧ classId stray_detection ∉ [1; 2; 3; 4].
Proof.
  cbv zeta. split_and!; [by vm_compute..|].
  rewrite !elem_of_cons, elem_of_nil. by vm_compute; intros [|[|[|[|]]]].
Qed.

(** The same detection in the upright pass makes the lookup raise. *)
Example merge_detection_stray_upright :
  (merge_detection id id (by_width four_arrows (stray_detection :: take 3 four_arrows) [])
     black_frame fresh_world).1
  = Raise (KeyError_int 7).
Proof. by vm_compute. Qed.

(** Scenario A of the design: the one ambiguous label takes the label of the
    rotated pass. *)
Example merge_detection_scenario_A :
  (merge_detection id id
     (by_width four_arrows four_arrows [det (9 # 10) (box_at (20 # 100)) 1])
     black_frame fresh_world).1
  = Ok ["up"; "right"; "down"; "right"].
Proof. by vm_compute. Qed.

(** C3, witness: upright [up, left, down, right] against rotated [right]. *)
Lemma merge_classes_spec_witness :
  Forall (λ r, r ∈ ["left"; "right"]) ["right"]
  ∧ length (merge_classes ["up"; "left"; "down"; "right"] ["right"]) = 4%nat
  ∧ merge_classes ["up"; "left"; "down"; "right"] ["right"] !! 1%nat = Some "right"
  ∧ merge_classes ["up"; "left"; "down"; "right"] ["right"] !! 2%nat = Some "down"
  ∧ merge_classes ["up"; "left"; "down"; "right"] ["right"] !! 3%nat = Some "right".
Proof.
  destruct (merge_classes_spec ["up"; "left"; "down"; "right"] ["right"])
    as (Hlen & Hkeep & Hpatch & _).
  split_and!.
  - by_evaluation.
  - exact Hlen.
  - apply (Hpatch 1%nat "left" eq_refl).
    by_evaluation.
  - apply (Hkeep 2%nat "down" eq_refl).
    by_evaluation.
  - apply (Hpatch 3%nat "right" eq_refl).
    by_evaluation.
Defined.

(** C5, witness: a 2x3 rune box is pasted at row 191, column 226. *)
Lemma pad_rune_box_spec_witness :
  wf_image small_rune_box
  ∧ x_offset_of small_rune_box = 226 ∧ y_offset_of small_rune_box = 191
  ∧ pixel_at (pad_rune_box small_rune_box) 192 228 = Some (6, 6, 6)
  ∧ pixel_at (pad_rune_box small_rune_box) 190 228 = Some black.
Proof.
  assert (Hwf : wf_image small_rune_box).
  { split; [by vm_compute|]. repeat constructor. }
  destruct (pad_rune_box_spec small_rune_box Hwf) as (_ & Hpasted & _).
  destruct Hpasted as [Hpixel _]; [by vm_compute|].
  split_and!; [exact Hwf|reflexivity|reflexivity|..].
  - rewrite (Hpixel 192%nat 228%nat) by lia. by vm_compute.
  - rewrite (Hpixel 190%nat 228%nat) by lia. by vm_compute.
Defined.

(** C6, witness: a model that never sees an arrow makes the loop run its
    101 cycles and end with the empty sequence of the last one. *)
Lemma detect_loop_terminates_witness :
  (101 ≤ 101)%nat
  ∧ let r := detect_loop id id (λ _, black_frame) (by_width [] [] []) 101 0 fresh_world in
    grabbed r.2 = 101%nat ∧ r.1 = Ok (Some []).
Proof.
  split; [lia|]. cbv zeta.
  destruct (detect_loop_terminates id id (λ _, black_frame) (by_width [] [] [])
              101 fresh_world (le_n 101)) as (Hn & _ & _ & Hlast).
  assert (Hnone : ∀ k, attempt id id (λ _, black_frame) (by_width [] [] []) true k = Ok [])
    by (intros k; by vm_compute).
  cbn [enabled fresh_world] in Hlast. rewrite Hnone in Hlast.
  destruct Hlast as [Hr [Hlen|Hcount]]; [done|].
  cbn [grabbed fresh_world] in Hcount. split; [lia|done].
Defined.

(** C7, witness: four labels give their first letters, no label gives
    [err]. *)
Lemma handle_results_two_lines_witness :
  Forall direction ["up"; "right"; "down"; "right"]
  ∧ pipe (handle_results ["up"; "right"; "down"; "right"] fresh_world).2
    = [WriteFile ("urdr" +:+ LF); WriteFile ("Closing connection" +:+ LF); CloseHandle]
  ∧ pipe (handle_results [] fresh_world).2
    = [WriteFile ("err" +:+ LF); WriteFile ("Closing connection" +:+ LF); CloseHandle].
Proof.
  assert (Hdir : Forall direction ["up"; "right"; "down"; "right"]).
  { by_evaluation. }
  split_and!; [exact Hdir|..].
  - by rewrite (handle_results_two_lines _ fresh_world Hdir).
  - by rewrite (handle_results_two_lines [] fresh_world (Forall_nil_2 _)).
Defined.

(** C8, witness: a disabled world is left untouched. *)
Lemma merge_detection_disabled_witness :
  enabled disabled_world = false
  ∧ merge_detection id id (by_width four_arrows four_arrows []) black_frame disabled_world
    = (Ok [], disabled_world).
Proof. split; [reflexivity|]. by apply merge_detection_disabled. Defined.

(** * Further properties *)

(** ** Colour filter *)

Lemma assign_where_row (h : pixel → pixel) (row : list pixel) :
  zip_with (λ (am : pixel * bool) (p : pixel), if am.2 then p else am.1)
    (zip ((λ _, black) <$> row) ((λ m, 0 <? m) <$> (inRange <$> (h <$> row)))) row
  = (λ p, if 0 <? inRange (h p) then p else black) <$> row.
Proof. induction row as [|p row IH]; [done|]. cbn. by rewrite IH. Qed.

Lemma filter_color_rows (h : pixel → pixel) (img : image) :
  rows (filter_color h img)
  = map_pixels (λ p, if 0 <? inRange (h p) then p else black) (rows img).
Proof.
  unfold filter_color, assign_where, map_pixels. cbn [rows].
  induction (rows img) as [|row rs IH]; [done|].
  cbn [fmap list_fmap zip zip_with fst snd]. f_equal; [|exact IH].
  apply assign_where_row.
Qed.

Lemma filter_color_eq (h : pixel → pixel) (img : image) :
  filter_color h img
  = {| width := width img;
       rows := map_pixels (λ p, if 0 <? inRange (h p) then p else black) (rows img) |}.
Proof. unfold filter_color. f_equal. apply (filter_color_rows h img). Qed.

Lemma inRange_values p : inRange p = 255 ∨ inRange p = 0.
Proof. unfold inRange. destruct p as [[h s] v]. case_match; auto. Qed.

(** X1: [filter_color] keeps a pixel whose HSV value is within the bounds
    and blackens every other one; it keeps the shape of the image; and
    filtering a filtered image changes nothing, whatever the conversion to
    HSV does. *)
Theorem filter_color_keeps_or_blackens (bgr2hsv : pixel → pixel) (img : image) :
  (∀ r c, pixel_at (filter_color bgr2hsv img) r c
          = (λ p, if decide (inRange (bgr2hsv p) = 255) then p else black)
              <$> pixel_at img r c)
  ∧ width (filter_color bgr2hsv img) = width img
  ∧ height (filter_color bgr2hsv img) = height img
  ∧ (wf_image img → wf_image (filter_color bgr2hsv img))
  ∧ filter_color bgr2hsv (filter_color bgr2hsv img) = filter_color bgr2hsv img.
Proof.
  assert (Hkeep : ∀ p, (if 0 <? inRange (bgr2hsv p) then p else black)
                       = if decide (inRange (bgr2hsv p) = 255) then p else black).
  { intros p. destruct (inRange_values (bgr2hsv p)) as [-> | ->]; by case_decide. }
  split_and!.
  - intros r c. unfold pixel_at. rewrite filter_color_rows. unfold map_pixels.
    rewrite list_lookup_fmap. destruct (rows img !! r) as [row|]; [|done].
    cbn. rewrite list_lookup_fmap. by destruct (row !! c); cbn; rewrite ?Hkeep.
  - done.
  - unfold height. rewrite filter_color_rows. unfold map_pixels.
    by rewrite length_fmap.
  - intros [Hw Hrect]. split; [done|]. rewrite filter_color_rows.
    unfold map_pixels. apply Forall_fmap.
    eapply Forall_impl; [exact Hrect|]. intros row Hrow. cbn.
    by rewrite length_fmap.
  - rewrite !filter_color_eq. cbn [width rows]. f_equal. unfold map_pixels.
    rewrite <- list_fmap_compose. apply list_fmap_ext. intros _ row _. cbn.
    rewrite <- list_fmap_compose. apply list_fmap_ext. intros _ p _. cbn.
    destruct (0 <? inRange (bgr2hsv p)) eqn:Hp; [by rewrite Hp|].
    by destruct (0 <? inRange (bgr2hsv black)).
Qed.

(** ** Box locator: the best four, whatever the order *)

Lemma filter_Permutation_bool {A} (f : A → bool) l1 l2 :
  l1 ≡ₚ l2 → List.filter f l1 ≡ₚ List.filter f l2.
Proof.
  induction 1 as [|x l1 l2 _ IH|x y l|l1 l2 l3 _ IH1 _ IH2]; cbn.
  - done.
  - destruct (f x); by rewrite IH.
  - destruct (f x), (f y); try done. apply Permutation_swap.
  - by rewrite IH1.
Qed.

Lemma filter_bool_elem_of {A} (f : A → bool) l x :
  x ∈ List.filter f l ↔ x ∈ l ∧ f x = true.
Proof. by rewrite !list_elem_of_In, filter_In. Qed.

(** X2: [sort_by_confidence] keeps detections that the model reported with
    a score above 0.5, as many as there are up to four; every confident
    detection that it drops scores no more than each one it keeps; and when
    the model reports at most four confident detections, it keeps them
    all. *)
Theorem sort_by_confidence_keeps_best model img w :
  ∃ ds,
    (sort_by_confidence model img w).1 = Ok ds
    ∧ (∀ t, t ∈ ds → t ∈ model img ∧ confident t = true)
    ∧ length ds = (4 `min` length (List.filter confident (model img)))%nat
    ∧ (∀ t s, t ∈ model img → confident t = true → s ∈ ds →
         t ∈ ds ∨ (score t <= score s)%Q)
    ∧ ((length (List.filter confident (model img)) ≤ 4)%nat →
       ds ≡ₚ List.filter confident (model img)).
Proof.
  exists (top_four (model img)). unfold top_four.
  set (sorted := sort_desc score (List.filter confident (model img))).
  assert (Hperm : sorted ≡ₚ List.filter confident (model img))
    by apply sort_desc_Permutation.
  split_and!.
  - done.
  - intros t Ht%subseteq_take. rewrite Hperm in Ht.
    by apply filter_bool_elem_of in Ht.
  - by rewrite length_take, Hperm.
  - intros t s Ht Hconf Hs.
    assert (Hin : t ∈ take 4 sorted ++ drop 4 sorted).
    { rewrite take_drop, Hperm. by apply filter_bool_elem_of. }
    apply elem_of_app in Hin as [Hin|Hin]; [by left|right].
    pose proof (sort_desc_sorted score (List.filter confident (model img))) as Hs'.
    fold sorted in Hs'. rewrite <- (take_drop 4 sorted) in Hs'.
    by eapply (StronglySorted_app_1_elem_of _ _ _ s t) in Hs'.
  - intros Hfew. rewrite take_ge by (by rewrite Hperm). done.
Qed.

(** X3: when no two confident detections of the model's output have the
    same score, the order in which the model lists its detections does not
    matter: two models whose outputs on the image are rearrangements of one
    another get the same detection set. *)
Theorem sort_by_confidence_order_independent (model1 model2 : detector) img w :
  model1 img ≡ₚ model2 img →
  (∀ s t, s ∈ model1 img → t ∈ model1 img →
     confident s = true → confident t = true →
     (score s == score t)%Q → s = t) →
  (sort_by_confidence model1 img w).1 = (sort_by_confidence model2 img w).1.
Proof.
  intros Hperm Hdistinct. rewrite !sort_by_confidence_run. cbn [fst].
  f_equal. unfold top_four. f_equal.
  apply (StronglySorted_unique_strong (λ s t, (score t <= score s)%Q)).
  - intros s t Hs Ht Hst Hts.
    rewrite sort_desc_Permutation in Hs, Ht.
    apply filter_bool_elem_of in Hs as [Hs Hcs].
    apply filter_bool_elem_of in Ht as [Ht Hct].
    rewrite <- Hperm in Ht.
    apply Hdistinct; try done. by apply Qle_antisym.
  - apply sort_desc_sorted.
  - apply sort_desc_sorted.
  - rewrite !sort_desc_Permutation. by apply filter_Permutation_bool.
Qed.

(** ** Upright pass: reading order *)

Lemma sort_asc_stable {A} (key : A → Q) (q : Q) l :
  List.filter (λ x, Qeq_bool (key x) q) (sort_asc key l)
  = List.filter (λ x, Qeq_bool (key x) q) l.
Proof.
  induction l as [|x l IH]; [done|].
  change (sort_asc key (x :: l))
    with (insert_stable Qltb key x (sort_asc key l)).
  rewrite insert_stable_filter.
  - cbn [List.filter]. by rewrite IH.
  - intros y _ Hy%Qeq_bool_iff Hx%Qeq_bool_iff. apply Qltb_ge.
    rewrite Hy, Hx. apply Qle_refl.
Qed.

Lemma upright_lookup k :
  k ∈ [1; 2; 3; 4] →
  ∃ l, ((k = 1 ∧ l = "up") ∨ (k = 2 ∧ l = "down")
        ∨ (k = 3 ∧ l = "left") ∨ (k = 4 ∧ l = "right"))
       ∧ ∀ w, getitem_int label_map k w = (Ok l, w).
Proof.
  rewrite !elem_of_cons, elem_of_nil. intros [->|[->|[->|[->|[]]]]].
  - exists "up". split; [tauto|]. by intros w; vm_compute.
  - exists "down". split; [tauto|]. by intros w; vm_compute.
  - exists "left". split; [tauto|]. by intros w; vm_compute.
  - exists "right". split; [tauto|]. by intros w; vm_compute.
Qed.

(** X4: when every detection kept on the canvas has a class among 1, 2, 3,
    4, the upright pass yields one label for each, in ascending order of
    the box's xMin (from left to right, detections of equal xMin in score
    order), and the label is up, down, left, right for class 1, 2, 3, 4. *)
Theorem upright_classes_of_reading_order (lst : list detection) (w : world) :
  Forall known_class lst →
  ∃ sorted labels,
    sorted ≡ₚ lst
    ∧ StronglySorted (λ s t, (xMin (det_box s) <= xMin (det_box t))%Q) sorted
    ∧ (∀ q, List.filter (λ t, Qeq_bool (xMin (det_box t)) q) sorted
            = List.filter (λ t, Qeq_bool (xMin (det_box t)) q) lst)
    ∧ upright_classes_of lst w = (Ok labels, w)
    ∧ Forall2 (λ t l, (classId t = 1 ∧ l = "up") ∨ (classId t = 2 ∧ l = "down")
                      ∨ (classId t = 3 ∧ l = "left") ∨ (classId t = 4 ∧ l = "right"))
        sorted labels.
Proof.
  intros Hknown.
  set (sorted := sort_asc (λ x, xMin (det_box x)) lst).
  destruct (mapM_Forall2 (λ item, getitem_int label_map (classId item))
    (λ t l, (classId t = 1 ∧ l = "up") ∨ (classId t = 2 ∧ l = "down")
            ∨ (classId t = 3 ∧ l = "left") ∨ (classId t = 4 ∧ l = "right"))
    sorted) as (labels & Hlabels & Hrun).
  { intros t Ht. unfold sorted in Ht. rewrite sort_asc_Permutation in Ht.
    eapply Forall_forall in Hknown; [|done].
    destruct (upright_lookup _ Hknown) as (l & Hl & Hw). eauto. }
  exists sorted, labels. split_and!.
  - apply sort_asc_Permutation.
  - apply (sort_asc_sorted (λ x, xMin (det_box x))).
  - intros q. apply sort_asc_stable.
  - apply Hrun.
  - done.
Qed.

(** ** Reconciliation as a whole *)

Lemma reconcile_ambiguous classes rotated_classes :
  Forall (λ r, ambiguous r = true) rotated_classes →
  List.filter ambiguous (reconcile classes rotated_classes)
  = take (length (List.filter ambiguous classes)) rotated_classes
    ++ drop (length rotated_classes) (List.filter ambiguous classes).
Proof.
  revert rotated_classes.
  induction classes as [|c cs IH]; intros [|r rest] Hrot.
  - done.
  - done.
  - by rewrite reconcile_nil_r, take_nil.
  - inversion Hrot as [|? ? Hr Hrest]; subst.
    cbn [reconcile List.filter]. destruct (ambiguous c) eqn:Hc.
    + cbn [List.filter length take drop app]. by rewrite Hr, IH.
    + cbn [List.filter]. by rewrite Hc, IH.
Qed.

Lemma reconcile_unambiguous classes rotated_classes :
  Forall (λ r, ambiguous r = true) rotated_classes →
  List.filter (λ c, negb (ambiguous c)) (reconcile classes rotated_classes)
  = List.filter (λ c, negb (ambiguous c)) classes.
Proof.
  revert rotated_classes.
  induction classes as [|c cs IH]; intros [|r rest] Hrot.
  - done.
  - done.
  - by rewrite reconcile_nil_r.
  - inversion Hrot as [|? ? Hr Hrest]; subst.
    cbn [reconcile List.filter]. destruct (ambiguous c) eqn:Hc.
    + cbn [List.filter negb]. by rewrite Hr, IH.
    + cbn [List.filter negb]. by rewrite Hc, IH.
Qed.

Lemma reconcile_nothing_to_patch classes rotated_classes :
  Forall (λ c, ambiguous c = false) classes →
  reconcile classes rotated_classes = classes.
Proof.
  induction 1 as [|c cs Hc _ IH]; destruct rotated_classes as [|r rest]; try done.
  cbn [reconcile]. by rewrite Hc, IH.
Qed.

(** X5: with a [rotated_classes] of left and right labels, the left/right
    labels of the result, read from left to right, are the first elements
    of [rotated_classes], as many as [classes] has left/right labels,
    followed by the left/right labels of [classes] that [rotated_classes]
    was too short to replace; the other labels of the result are those of
    [classes], in the same order. *)
Theorem merge_classes_consumes_in_order (classes rotated_classes : list string) :
  Forall (λ r, r ∈ ["left"; "right"]) rotated_classes →
  let horizontal := λ c : string, bool_decide (c ∈ ["left"; "right"]) in
  let n := length (List.filter horizontal classes) in
  List.filter horizontal (merge_classes classes rotated_classes)
  = take n rotated_classes
    ++ drop (length rotated_classes) (List.filter horizontal classes)
  ∧ List.filter (λ c, negb (horizontal c)) (merge_classes classes rotated_classes)
    = List.filter (λ c, negb (horizontal c)) classes.
Proof.
  intros Hrot. cbv zeta. rewrite merge_classes_reconcile.
  assert (Hrot' : Forall (λ r, ambiguous r = true) rotated_classes).
  { eapply Forall_impl; [exact Hrot|]. intros r Hr. by apply ambiguous_spec. }
  split.
  - exact (reconcile_ambiguous classes rotated_classes Hrot').
  - exact (reconcile_unambiguous classes rotated_classes Hrot').
Qed.

(** X6: reconciliation returns [classes] unchanged when the rotated pass
    gave no label, and when [classes] holds no left or right label,
    whatever the rotated pass gave; and it returns the empty sequence for an
    empty [classes]. *)
Theorem merge_classes_unchanged (classes rotated_classes : list string) :
  merge_classes classes [] = classes
  ∧ merge_classes [] rotated_classes = []
  ∧ (Forall (λ c, c ∉ ["left"; "right"]) classes →
     merge_classes classes rotated_classes = classes).
Proof.
  rewrite !merge_classes_reconcile. split_and!.
  - apply reconcile_nil_r.
  - done.
  - intros Hnone. apply reconcile_nothing_to_patch.
    eapply Forall_impl; [exact Hnone|]. intros c Hc.
    apply not_true_iff_false. by rewrite ambiguous_spec.
Qed.

(** ** The merger: what it costs and what each pass decides *)

Lemma rotated_classes_of_horizontal lst rc :
  run_pure (rotated_classes_of lst) = Ok rc →
  Forall (λ r, r ∈ ["left"; "right"]) rc.
Proof.
  destruct (rotated_classes_of_labels lst) as (labels & Hrun & Hlabels).
  unfold run_pure. rewrite Hrun. intros [= <-].
  eapply Forall2_Forall_r; [exact Hlabels|]. apply Forall_true.
  intros t l [[_ ->]|[_ ->]]; rewrite !elem_of_cons; tauto.
Qed.

Lemma reconcile_axis classes rotated_classes :
  Forall direction classes →
  Forall (λ r, r ∈ ["left"; "right"]) rotated_classes →
  Forall2 (λ c a, (c ∈ ["up"; "down"] ∧ a = c)
                  ∨ (c ∈ ["left"; "right"] ∧ a ∈ ["left"; "right"]))
    classes (reconcile classes rotated_classes).
Proof.
  assert (Hsplit : ∀ c, direction c →
            (c ∈ ["up"; "down"] ∧ ambiguous c = false)
            ∨ (c ∈ ["left"; "right"] ∧ ambiguous c = true)).
  { intros c. unfold direction. rewrite !elem_of_cons, elem_of_nil.
    intros [->|[->|[->|[->|[]]]]]; [left|left|right|right];
      (split; [tauto|done]). }
  assert (Hsame : ∀ cs, Forall direction cs →
            Forall2 (λ c a, (c ∈ ["up"; "down"] ∧ a = c)
                            ∨ (c ∈ ["left"; "right"] ∧ a ∈ ["left"; "right"])) cs cs).
  { induction 1 as [|c cs Hc _ IH]; constructor; [|done].
    destruct (Hsplit c Hc) as [[? _]|[? _]]; [by left|by right]. }
  intros Hc. revert rotated_classes.
  induction Hc as [|c cs Hd Hcs IH]; intros [|r rest] Hr.
  - constructor.
  - constructor.
  - rewrite reconcile_nil_r. apply Hsame. by constructor.
  - inversion Hr; subst. cbn [reconcile].
    destruct (Hsplit c Hd) as [[Hv ->]|[Hh ->]].
    + constructor; [by left|]. by apply IH.
    + constructor; [by right|]. by apply IH.
Qed.


(** X8: every label that [merge_detection] returns is up, down, left or
    right.  A non-empty result has one label for each label of the upright
    pass, in the same order: where the upright pass said up or down, the
    same label; where it said left or right, left or right.  The rotated
    pass never turns a vertical arrow into a horizontal one or back. *)
Theorem merge_detection_keeps_axis filter_color canny model img w arrows :
  (merge_detection filter_color canny model img w).1 = Ok arrows →
  Forall direction arrows
  ∧ (arrows = []
     ∨ ∃ rune_box classes,
         run_pure (rune_box_of (cannied_of filter_color canny img)
                     (coarse_boxes filter_color canny model img)) = Ok rune_box
         ∧ run_pure (upright_classes_of (top_four (model (pad_rune_box rune_box))))
           = Ok classes
         ∧ Forall2 (λ c a, (c ∈ ["up"; "down"] ∧ a = c)
                           ∨ (c ∈ ["left"; "right"] ∧ a ∈ ["left"; "right"]))
             classes arrows).
Proof.
  destruct (merge_detection_cases filter_color canny model img w)
    as [[_ ->]|[(_ & _ & ->)|(_ & _ & rb & Hrb & [(_ & H)|(_ & H)])]].
  - intros [= <-]. split; [constructor|by left].
  - intros [= <-]. split; [constructor|by left].
  - destruct H as (classes & rc & _ & Hc & Hrcdir & Hup & Hrot & ->).
    intros [= <-]. rewrite merge_classes_reconcile.
    split; [by apply reconcile_direction|]. right.
    exists rb, classes. split_and!; [done..|].
    apply reconcile_axis; [done|]. by eapply rotated_classes_of_horizontal.
  - by destruct H as (t & _ & _ & ->).
Qed.

(** ** Geometry: the first crop and the canvas *)

Lemma py_slice_lookup {A} (l : list A) a b i :
  0 ≤ a →
  py_slice l a b !! i
  = if decide (i < Z.to_nat (slice_len (Z.of_nat (length l)) a b))%nat
    then l !! (Z.to_nat a + i)%nat else None.
Proof.
  intros Ha. unfold py_slice. rewrite lookup_take. case_decide as Hi; [|done].
  rewrite lookup_drop. f_equal.
  unfold slice_len, slice_bound in *.
  destruct (a <? 0) eqn:Ha'; [lia|]. destruct (b <? 0) eqn:Hb; lia.
Qed.

(** X10: the region that [merge_detection] hands to the filters is rows 120
    to [H // 2] and columns [W // 4] to [3W // 4] of a frame of [H] rows of
    [W] pixels: it has [max(0, H // 2 - 120)] rows of [3W // 4 - W // 4]
    pixels, its pixel [(r, c)] is the frame's pixel [(120 + r, W // 4 + c)],
    and it is empty for a frame of fewer than 242 rows. *)
Theorem first_crop_region (img : image) :
  wf_image img →
  let cropped := crop img 120 (height img / 2) (width img / 4) (3 * width img / 4) in
  height cropped = Z.max 0 (height img / 2 - 120)
  ∧ width cropped = 3 * width img / 4 - width img / 4
  ∧ wf_image cropped
  ∧ (∀ r c, (r < Z.to_nat (height cropped))%nat → (c < Z.to_nat (width cropped))%nat →
       pixel_at cropped r c
       = pixel_at img (120 + r) (Z.to_nat (width img / 4) + c))
  ∧ (height img < 242 → rows cropped = []).
Proof.
  intros Hwf. pose proof Hwf as [Hw Hrect]. cbv zeta.
  assert (Hheight : height (crop img 120 (height img / 2) (width img / 4)
                             (3 * width img / 4))
                    = Z.max 0 (height img / 2 - 120)).
  { unfold crop, height. cbn [rows]. rewrite length_fmap, py_slice_length.
    unfold slice_len, slice_bound.
    assert (0 ≤ Z.of_nat (length (rows img))) by lia.
    destruct (120 <? 0) eqn:E1; [lia|].
    destruct (Z.of_nat (length (rows img)) / 2 <? 0) eqn:E2;
      Z.div_mod_to_equations; lia. }
  assert (Hwidth : slice_len (width img) (width img / 4) (3 * width img / 4)
                   = 3 * width img / 4 - width img / 4).
  { unfold slice_len, slice_bound.
    destruct (width img / 4 <? 0) eqn:E1, (3 * width img / 4 <? 0) eqn:E2;
      Z.div_mod_to_equations; lia. }
  split_and!.
  - exact Hheight.
  - exact Hwidth.
  - by apply crop_wf.
  - intros r c Hr Hc. rewrite Hheight in Hr. cbn [crop width] in Hc.
    unfold pixel_at, crop. cbn [rows].
    rewrite list_lookup_fmap, py_slice_lookup by lia.
    rewrite decide_True.
    2:{ pose proof (py_slice_length (rows img) 120 (height img / 2)) as Hlen.
        unfold crop in Hheight. unfold height in *. cbn [rows] in Hheight.
        rewrite length_fmap in Hheight. lia. }
    change (Z.to_nat 120) with 120%nat.
    destruct (rows img !! (120 + r)%nat) as [row|] eqn:Hrow; [|done].
    cbn. eapply Forall_lookup_1 in Hrect; [|done]. cbn in Hrect.
    rewrite py_slice_lookup by (Z.div_mod_to_equations; lia).
    rewrite Hrect, Z2Nat.id by done. by rewrite decide_True.
  - intros Hsmall.
    unfold crop in *. unfold height in *. cbn [rows] in *.
    apply length_zero_iff_nil.
    Z.div_mod_to_equations. lia.
Qed.

(** X9: the rune box is pasted exactly when it is at most 453 pixels wide
    and at most 382 rows high; a rune box 454 or 455 wide, or 383 or 384
    high, would fit the canvas and leaves it black all the same, like any
    larger one. *)
Theorem pad_rune_box_threshold (rune_box : image) :
  ((x_offset_of rune_box > 0 ∧ y_offset_of rune_box > 0)
   ↔ (width rune_box ≤ 453 ∧ height rune_box ≤ 382))
  ∧ (454 ≤ width rune_box ∨ 383 ≤ height rune_box →
     pad_rune_box rune_box = full 384 455 black)
  ∧ (width rune_box ≤ 453 → height rune_box ≤ 382 →
     pad_rune_box rune_box
     = set_region (full 384 455 black)
         ((384 - height rune_box) / 2) ((455 - width rune_box) / 2) rune_box).
Proof.
  assert (Hiff : (x_offset_of rune_box > 0 ∧ y_offset_of rune_box > 0)
                 ↔ (width rune_box ≤ 453 ∧ height rune_box ≤ 382)).
  { unfold x_offset_of, y_offset_of, pad_width, pad_height.
    split; intros [??]; split; Z.div_mod_to_equations; lia. }
  split_and!.
  - exact Hiff.
  - intros Hbig. apply pad_rune_box_black. rewrite Hiff. lia.
  - intros Hw Hh. unfold pad_rune_box.
    destruct (proj2 Hiff (conj Hw Hh)) as [Hx Hy].
    by rewrite !bool_decide_eq_true_2.
Qed.

(** ** Rotation *)

Lemma omap_tail_lookup (rs : list (list pixel)) k :
  omap (λ row, row !! k) (tail <$> rs) = omap (λ row, row !! S k) rs.
Proof.
  induction rs as [|row rs IH]; [done|].
  cbn [fmap list_fmap omap list_omap]. by rewrite lookup_tail, IH.
Qed.

Lemma columns_lookup w (rs : list (list pixel)) k :
  (k < w)%nat → columns w rs !! k = Some (omap (λ row, row !! k) rs).
Proof.
  revert rs k. induction w as [|w IH]; intros rs k Hk; [lia|].
  destruct k as [|k]; cbn [columns].
  - cbn. f_equal. induction rs as [|row rs IHrs]; [done|].
    cbn [omap list_omap]. by rewrite head_lookup, IHrs.
  - cbn. rewrite IH by lia. by rewrite omap_tail_lookup.
Qed.

Lemma columns_length w (rs : list (list pixel)) : length (columns w rs) = w.
Proof. revert rs. induction w as [|w IH]; intros rs; cbn; [done|]. by rewrite IH. Qed.

Lemma column_rect (rs : list (list pixel)) k :
  Forall (λ row, (k < length row)%nat) rs →
  length (omap (λ row, row !! k) rs) = length rs
  ∧ ∀ j, omap (λ row, row !! k) rs !! j = rs !! j ≫= (.!! k).
Proof.
  induction 1 as [|row rs Hrow _ [IHlen IH]]; [done|].
  destruct (lookup_lt_is_Some_2 row k Hrow) as [p Hp].
  cbn [omap list_omap]. rewrite Hp. cbn. split; [by rewrite IHlen|].
  intros [|j]; cbn; [done|]. apply IH.
Qed.

(** X12: the rotated image that the third inference sees is the canvas
    turned by 90 degrees counter-clockwise: for an image of [H] rows of [W]
    pixels it has [W] rows of [H] pixels, and its pixel [(i, j)] is the
    pixel [(j, W - 1 - i)] of the image. *)
Theorem rotate_ccw_pixels (img : image) :
  wf_image img →
  width (rotate_ccw img) = height img
  ∧ height (rotate_ccw img) = width img
  ∧ wf_image (rotate_ccw img)
  ∧ ∀ i j, (i < Z.to_nat (width img))%nat → (j < length (rows img))%nat →
      pixel_at (rotate_ccw img) i j
      = pixel_at img j (Z.to_nat (width img) - 1 - i).
Proof.
  intros [Hw Hrect].
  assert (Hcol : ∀ k, (k < Z.to_nat (width img))%nat →
            Forall (λ row : list pixel, (k < length row)%nat) (rows img)).
  { intros k Hk. eapply Forall_impl; [exact Hrect|]. intros row Hrow.
    cbn in Hrow. lia. }
  split_and!.
  - done.
  - unfold height, rotate_ccw. cbn [rows].
    rewrite length_reverse, columns_length. lia.
  - split; [unfold rotate_ccw, height; cbn; lia|].
    unfold rotate_ccw. cbn [rows width]. apply Forall_reverse, Forall_forall.
    intros col [k Hk]%list_elem_of_lookup_1.
    assert (k < Z.to_nat (width img))%nat as Hlt.
    { apply lookup_lt_Some in Hk. by rewrite columns_length in Hk. }
    rewrite columns_lookup in Hk by done. injection Hk as <-.
    destruct (column_rect (rows img) k (Hcol k Hlt)) as [-> _].
    unfold height. by rewrite Nat2Z.id.
  - intros i j Hi Hj. unfold pixel_at, rotate_ccw. cbn [rows].
    rewrite reverse_lookup by (by rewrite columns_length).
    rewrite columns_length, columns_lookup by lia. cbn.
    destruct (column_rect (rows img) (Z.to_nat (width img) - S i))
      as [_ ->]; [apply Hcol; lia|].
    by replace (Z.to_nat (width img) - 1 - i)%nat
         with (Z.to_nat (width img) - S i)%nat by lia.
Qed.

(** ** The enclosing rectangle *)

Lemma py_round_bounds q : Qfloor q ≤ py_round q ≤ Qfloor q + 1.
Proof. unfold py_round. repeat case_match; lia. Qed.

Lemma py_round_mono q1 q2 : (q1 <= q2)%Q → py_round q1 ≤ py_round q2.
Proof.
  intros Hq. pose proof (Qfloor_resp_le _ _ Hq) as Hf.
  destruct (decide (Qfloor q1 = Qfloor q2)) as [Heq|Hne].
  - unfold py_round. rewrite Heq.
    destruct (Qltb (q1 - inject_Z (Qfloor q2)) (1 # 2)) eqn:H1;
      destruct (Qltb (q2 - inject_Z (Qfloor q2)) (1 # 2)) eqn:H2;
      destruct (Qltb (1 # 2) (q1 - inject_Z (Qfloor q2))) eqn:H3;
      destruct (Qltb (1 # 2) (q2 - inject_Z (Qfloor q2))) eqn:H4;
      rewrite ?Qltb_lt, ?Qltb_ge in *; destruct (Z.even (Qfloor q2));
      try lia; exfalso; lra.
  - pose proof (py_round_bounds q1). pose proof (py_round_bounds q2). lia.
Qed.

Lemma foldl_min_spec (xs : list Q) (m0 : Q) :
  let m := foldl (λ m y, if Qltb y m then y else m) m0 xs in
  (m <= m0)%Q ∧ Forall (λ x, (m <= x)%Q) xs ∧ (m = m0 ∨ m ∈ xs).
Proof.
  revert m0. induction xs as [|x xs IH]; intros m0; cbn.
  - split_and!; [apply Qle_refl|constructor|by left].
  - destruct (Qltb x m0) eqn:Hx.
    + apply Qltb_lt in Hx. destruct (IH x) as (Hle & Hall & Hin).
      split_and!.
      * eapply Qle_trans; [exact Hle|]. by apply Qlt_le_weak.
      * by constructor.
      * right. destruct Hin as [->|Hin]; [by left|by right].
    + apply Qltb_ge in Hx. destruct (IH m0) as (Hle & Hall & Hin).
      split_and!; [done| |].
      * constructor; [|done]. by eapply Qle_trans.
      * destruct Hin as [->|Hin]; [by left|right; by right].
Qed.

Lemma foldl_max_spec (xs : list Q) (m0 : Q) :
  let m := foldl (λ m y, if Qltb m y then y else m) m0 xs in
  (m0 <= m)%Q ∧ Forall (λ x, (x <= m)%Q) xs ∧ (m = m0 ∨ m ∈ xs).
Proof.
  revert m0. induction xs as [|x xs IH]; intros m0; cbn.
  - split_and!; [apply Qle_refl|constructor|by left].
  - destruct (Qltb m0 x) eqn:Hx.
    + apply Qltb_lt in Hx. destruct (IH x) as (Hle & Hall & Hin).
      split_and!.
      * eapply Qle_trans; [|exact Hle]. by apply Qlt_le_weak.
      * by constructor.
      * right. destruct Hin as [->|Hin]; [by left|by right].
    + apply Qltb_ge in Hx. destruct (IH m0) as (Hle & Hall & Hin).
      split_and!; [done| |].
      * constructor; [|done]. by eapply Qle_trans.
      * destruct Hin as [->|Hin]; [by left|right; by right].
Qed.

Lemma py_min_spec xs :
  xs ≠ [] → ∃ m, py_min xs = Some m ∧ m ∈ xs ∧ Forall (λ x, (m <= x)%Q) xs.
Proof.
  destruct xs as [|x xs]; [done|]. intros _.
  destruct (foldl_min_spec xs x) as (Hle & Hall & Hin).
  eexists. split; [done|]. split.
  - destruct Hin as [->|Hin]; [by left|by right].
  - by constructor.
Qed.

Lemma py_max_spec xs :
  xs ≠ [] → ∃ m, py_max xs = Some m ∧ m ∈ xs ∧ Forall (λ x, (x <= m)%Q) xs.
Proof.
  destruct xs as [|x xs]; [done|]. intros _.
  destruct (foldl_max_spec xs x) as (Hle & Hall & Hin).
  eexists. split; [done|]. split.
  - destruct Hin as [->|Hin]; [by left|by right].
  - by constructor.
Qed.

Lemma scaled_round_mono (q1 q2 : Q) (n : Z) :
  0 ≤ n → (q1 <= q2)%Q →
  py_round (q1 * inject_Z n) ≤ py_round (q2 * inject_Z n).
Proof.
  intros Hn Hq. apply py_round_mono, Qmult_le_compat_r; [done|].
  change 0%Q with (inject_Z 0). by rewrite <- Zle_Qle.
Qed.

(** X11: for a rectangular image and at least one box, the rune box is the
    part of the image between the rows [top] and [bottom] and the columns
    [left] and [right], where every box, scaled to pixels and rounded, lies
    within these four bounds, and each bound is the scaled and rounded side
    of one of the boxes: the smallest rectangle of whole pixels that holds
    them all.  The rune box is rectangular and no larger than the image. *)
Theorem rune_box_of_encloses (cannied : image) (boxes : list (box * Z)) :
  wf_image cannied → boxes ≠ [] →
  let W := inject_Z (width cannied) in
  let H := inject_Z (height cannied) in
  ∃ top bottom left right,
    run_pure (rune_box_of cannied boxes) = Ok (crop cannied top bottom left right)
    ∧ (∀ b, b ∈ boxes →
         left ≤ py_round (xMin b.1 * W) ∧ py_round (xMax b.1 * W) ≤ right
         ∧ top ≤ py_round (yMin b.1 * H) ∧ py_round (yMax b.1 * H) ≤ bottom)
    ∧ (∃ b, b ∈ boxes ∧ left = py_round (xMin b.1 * W))
    ∧ (∃ b, b ∈ boxes ∧ right = py_round (xMax b.1 * W))
    ∧ (∃ b, b ∈ boxes ∧ top = py_round (yMin b.1 * H))
    ∧ (∃ b, b ∈ boxes ∧ bottom = py_round (yMax b.1 * H))
    ∧ wf_image (crop cannied top bottom left right)
    ∧ width (crop cannied top bottom left right) ≤ width cannied
    ∧ height (crop cannied top bottom left right) ≤ height cannied.
Proof.
  intros Hwf Hne. cbv zeta. pose proof Hwf as [Hw _].
  assert (Hh : 0 ≤ height cannied) by (unfold height; lia).
  assert (Hnonempty : ∀ f : box * Z → Q, f <$> boxes ≠ []).
  { intros f Hnil. apply fmap_nil_inv in Hnil. done. }
  destruct (py_min_spec _ (Hnonempty (λ b, xMin b.1))) as (min_x & Hminx & Hinx & Hlex).
  destruct (py_max_spec _ (Hnonempty (λ b, xMax b.1))) as (max_x & Hmaxx & Hinxx & Hgex).
  destruct (py_min_spec _ (Hnonempty (λ b, yMin b.1))) as (min_y & Hminy & Hiny & Hley).
  destruct (py_max_spec _ (Hnonempty (λ b, yMax b.1))) as (max_y & Hmaxy & Hinyy & Hgey).
  exists (py_round (min_y * inject_Z (height cannied))),
         (py_round (max_y * inject_Z (height cannied))),
         (py_round (min_x * inject_Z (width cannied))),
         (py_round (max_x * inject_Z (width cannied))).
  split_and!.
  - unfold run_pure, rune_box_of. by rewrite Hminx, Hmaxx, Hminy, Hmaxy.
  - intros b Hb.
    rewrite Forall_fmap, Forall_forall in Hlex, Hgex, Hley, Hgey.
    split_and!; apply scaled_round_mono; try done;
      [apply (Hlex b Hb)|apply (Hgex b Hb)|apply (Hley b Hb)|apply (Hgey b Hb)].
  - apply list_elem_of_fmap in Hinx as (b & -> & Hb). by exists b.
  - apply list_elem_of_fmap in Hinxx as (b & -> & Hb). by exists b.
  - apply list_elem_of_fmap in Hiny as (b & -> & Hb). by exists b.
  - apply list_elem_of_fmap in Hinyy as (b & -> & Hb). by exists b.
  - by apply crop_wf.
  - unfold crop, slice_len, slice_bound. cbn [width].
    repeat case_match; lia.
  - unfold crop, height. cbn [rows]. rewrite length_fmap, py_slice_length.
    unfold slice_len, slice_bound. repeat case_match; lia.
Qed.

(** ** What the model is shown *)

Lemma pad_rune_box_shape rune_box :
  wf_image rune_box →
  wf_image (pad_rune_box rune_box)
  ∧ width (pad_rune_box rune_box) = 455
  ∧ height (pad_rune_box rune_box) = 384.
Proof.
  intros [Hw Hrect].
  assert (Hwidth : width (pad_rune_box rune_box) = 455).
  { unfold pad_rune_box. by case_match. }
  destruct (decide (x_offset_of rune_box > 0 ∧ y_offset_of rune_box > 0))
    as [[Hx Hy]|Hno].
  - destruct (offsets_fit _ Hx Hy) as [Hfx Hfy].
    assert (Hpad : pad_rune_box rune_box
                   = set_region (full pad_height pad_width black)
                       (y_offset_of rune_box) (x_offset_of rune_box) rune_box).
    { unfold pad_rune_box. by rewrite !bool_decide_eq_true_2. }
    unfold wf_image, height. rewrite Hwidth, Hpad.
    unfold set_region, full. cbn [rows width].
    unfold height. rewrite Nat2Z.id.
    destruct (region_rect black (Z.to_nat pad_height) (Z.to_nat pad_width)
      (Z.to_nat (y_offset_of rune_box)) (Z.to_nat (x_offset_of rune_box))
      (Z.to_nat (width rune_box)) (rows rune_box) Hrect) as [Hrows Hlen];
      [unfold height, pad_height in *; lia|unfold pad_width in *; lia|].
    rewrite Hlen. by split_and!.
  - rewrite pad_rune_box_black by done. split_and!; [by apply full_wf|done|].
    unfold full, height. cbn [rows]. by rewrite length_replicate.
Qed.

Lemma rotate_ccw_shape img :
  wf_image img →
  wf_image (rotate_ccw img)
  ∧ width (rotate_ccw img) = height img ∧ height (rotate_ccw img) = width img.
Proof.
  intros [Hw Hrect]. split_and!; [split| |].
  - unfold rotate_ccw, height. cbn. lia.
  - unfold rotate_ccw. cbn [rows width]. apply Forall_reverse, Forall_forall.
    intros col [k Hk]%list_elem_of_lookup_1.
    assert (k < Z.to_nat (width img))%nat as Hlt.
    { apply lookup_lt_Some in Hk. by rewrite columns_length in Hk. }
    rewrite columns_lookup in Hk by done. injection Hk as <-.
    destruct (column_rect (rows img) k) as [-> _].
    { eapply Forall_impl; [exact Hrect|]. intros row Hrow. cbn in Hrow. lia. }
    unfold height. by rewrite Nat2Z.id.
  - done.
  - unfold height, rotate_ccw. cbn [rows].
    rewrite length_reverse, columns_length. lia.
Qed.

(** X13: when the filters hand back a rectangular image, whatever the
    frame and whatever the model answers, the second inference of
    [merge_detection] is on a rectangular canvas of 384 rows of 455 pixels,
    and the third on that canvas rotated, 455 rows of 384 pixels. *)
Theorem merge_detection_canvas_shape filter_color canny model img w :
  wf_image (cannied_of filter_color canny img) →
  ∃ seen,
    invoked (merge_detection filter_color canny model img w).2 = invoked w ++ seen
    ∧ (length seen ≤ 3)%nat
    ∧ (∀ canvas, seen !! 1%nat = Some canvas →
         wf_image canvas ∧ width canvas = 455 ∧ height canvas = 384)
    ∧ (∀ rotated, seen !! 2%nat = Some rotated →
         wf_image rotated ∧ width rotated = 384 ∧ height rotated = 455
         ∧ ∃ canvas, seen !! 1%nat = Some canvas ∧ rotated = rotate_ccw canvas).
Proof.
  intros Hwf.
  destruct (merge_detection_cases filter_color canny model img w)
    as [[_ ->]|[(_ & _ & ->)|(_ & _ & rb & Hrb & H)]].
  - exists []. cbn. rewrite app_nil_r. split_and!; [done|lia|done..].
  - exists [cannied_of filter_color canny img]. cbn. split_and!; [done|lia|done..].
  - destruct (pad_rune_box_shape rb) as (Hcwf & Hcw & Hch);
      [by eapply rune_box_of_wf|].
    destruct (rotate_ccw_shape _ Hcwf) as (Hrwf & Hrw & Hrh).
    destruct H as [(_ & classes & rc & _ & _ & _ & _ & _ & ->)
                  |(_ & t & _ & _ & ->)].
    + exists [cannied_of filter_color canny img; pad_rune_box rb;
              rotate_ccw (pad_rune_box rb)].
      cbn. rewrite <- !app_assoc. split_and!; [done|lia| |].
      * by intros canvas [= <-].
      * intros rotated [= <-]. split_and!; [done|congruence|congruence|eauto].
    + exists [cannied_of filter_color canny img; pad_rune_box rb].
      cbn. rewrite <- !app_assoc. split_and!; [done|lia| |done].
      by intros canvas [= <-].
Qed.

(** ** The response, for any sequence *)

Lemma first_char_nonempty (c : ascii) (s : string) (w : world) :
  first_char (String c s) w = (Ok (direction_code (String c s)), w).
Proof. unfold direction_code. cbn. by destruct s. Qed.

Lemma append_first_chars_any communication_string arrows w :
  (Forall (λ arrow, arrow ≠ EmptyString) arrows
   ∧ append_first_chars communication_string arrows w
     = (Ok (communication_string
            +:+ foldr (λ arrow line, direction_code arrow +:+ line) EmptyString arrows),
        w))
  ∨ (EmptyString ∈ arrows
     ∧ append_first_chars communication_string arrows w = (Raise IndexError, w)).
Proof.
  revert communication_string.
  induction arrows as [|arrow arrows IH]; intros acc.
  - left. split; [constructor|]. cbn [append_first_chars foldr].
    by rewrite string_app_nil_r.
  - destruct arrow as [|c s].
    + right. split; [by left|done].
    + cbn [append_first_chars].
      rewrite (bind_Ok _ _ _ _ _ (first_char_nonempty c s w)).
      destruct (IH (acc +:+ direction_code (String c s))) as [[Hne ->]|[Hin ->]].
      * left. split; [by constructor|]. cbn [foldr]. by rewrite string_app_assoc.
      * right. split; [by right|done].
Qed.

(** X14: [handle_results], for any sequence of labels, either writes the
    two lines and closes the pipe, changing nothing else, or raises
    [IndexError] having written nothing; it raises only for a sequence of
    length 4 that holds an empty label.  A sequence of any other length
    gives the line [err] without its labels being looked at. *)
Theorem handle_results_outcome (arrows : list string) (w : world) :
  match handle_results arrows w with
  | (Ok _, w') =>
      (length arrows = 4%nat → Forall (λ arrow, arrow ≠ EmptyString) arrows)
      ∧ w' = {| enabled := enabled w; invoked := invoked w; grabbed := grabbed w;
                pipe := pipe w ++ response (response_line arrows) |}
  | (Raise e, w') =>
      e = IndexError ∧ w' = w
      ∧ length arrows = 4%nat ∧ EmptyString ∈ arrows
  end.
Proof.
  unfold handle_results, response_line, response.
  case_bool_decide as Hlen.
  - rewrite decide_True by done.
    destruct (append_first_chars_any EmptyString arrows w) as [[Hne Hrun]|[Hin Hrun]].
    + rewrite (bind_Ok _ _ _ _ _ Hrun). cbn. split; [done|].
      unfold log_pipe. cbn. by rewrite <- !app_assoc.
    + by rewrite (bind_Raise _ _ _ _ _ Hrun).
  - rewrite decide_False by done. cbn. split; [done|].
    unfold log_pipe. cbn. by rewrite <- !app_assoc.
Qed.

Lemma letters_inj (arrows1 arrows2 : list string) :
  Forall direction arrows1 → Forall direction arrows2 →
  foldr (λ arrow line, direction_code arrow +:+ line) EmptyString arrows1 +:+ LF
  = foldr (λ arrow line, direction_code arrow +:+ line) EmptyString arrows2 +:+ LF →
  arrows1 = arrows2.
Proof.
  intros H1. revert arrows2.
  induction H1 as [|a1 l1 Ha1 _ IH]; intros arrows2 H2; destruct H2 as [|a2 l2 Ha2 H2].
  - done.
  - unfold direction in Ha2. rewrite !elem_of_cons, elem_of_nil in Ha2.
    destruct Ha2 as [->|[->|[->|[->|[]]]]]; discriminate.
  - unfold direction in Ha1. rewrite !elem_of_cons, elem_of_nil in Ha1.
    destruct Ha1 as [->|[->|[->|[->|[]]]]]; discriminate.
  - unfold direction in Ha1, Ha2. rewrite !elem_of_cons, elem_of_nil in Ha1, Ha2.
    intros Heq.
    assert (a1 = a2 ∧ foldr (λ arrow line, direction_code arrow +:+ line) EmptyString l1 +:+ LF
                      = foldr (λ arrow line, direction_code arrow +:+ line) EmptyString l2 +:+ LF)
      as [-> Htail].
    { destruct Ha1 as [->|[->|[->|[->|[]]]]]; destruct Ha2 as [->|[->|[->|[->|[]]]]];
        cbn [foldr] in Heq; by simplify_eq/=. }
    f_equal. by apply IH.
Qed.

(** X15: the response tells the client what was detected: two sequences of
    four directions that make [handle_results] write the same to the pipe
    are the same sequence, and what is written for four directions is never
    what is written for a failed detection. *)
Theorem handle_results_unambiguous (arrows1 arrows2 : list string) (w : world) :
  Forall direction arrows1 → Forall direction arrows2 →
  length arrows1 = 4%nat → length arrows2 = 4%nat →
  (pipe (handle_results arrows1 w).2 = pipe (handle_results arrows2 w).2 →
   arrows1 = arrows2)
  ∧ pipe (handle_results arrows1 w).2 ≠ pipe (handle_results [] w).2.
Proof.
  intros H1 H2 Hl1 Hl2.
  rewrite !handle_results_run by (done || constructor).
  rewrite !bool_decide_eq_true_2 by done. rewrite bool_decide_eq_false_2 by done.
  unfold log_pipe. cbn [pipe snd]. rewrite <- !app_assoc. cbn [app].
  split.
  - intros Heq%app_inv_head. injection Heq as Heq.
    by apply letters_inj.
  - intros Heq%app_inv_head. injection Heq as Heq.
    destruct H1 as [|a l Ha _]; [done|].
    unfold direction in Ha. rewrite !elem_of_cons, elem_of_nil in Ha.
    destruct Ha as [->|[->|[->|[->|[]]]]]; discriminate.
Qed.

(** ** Sessions and the server *)

Lemma merge_detection_frame filter_color canny model img w :
  let r := merge_detection filter_color canny model img w in
  enabled r.2 = enabled w ∧ grabbed r.2 = grabbed w ∧ pipe r.2 = pipe w
  ∧ ∃ seen, invoked r.2 = invoked w ++ seen ∧ (length seen ≤ 3)%nat
            ∧ (enabled w = true → (1 ≤ length seen)%nat).
Proof.
  cbv zeta.
  destruct (merge_detection_cases filter_color canny model img w)
    as [[Hoff ->]|[(_ & _ & ->)|(_ & _ & rb & _ & [(_ & H)|(_ & H)])]].
  - split_and!; [done..|]. exists []. cbn. rewrite app_nil_r.
    split_and!; [done|lia|congruence].
  - split_and!; [done..|]. eexists [_]. cbn. split_and!; [done|lia|lia].
  - destruct H as (classes & rc & _ & _ & _ & _ & _ & ->).
    split_and!; [done..|]. eexists [_; _; _]. cbn. rewrite <- !app_assoc.
    split_and!; [done|lia|lia].
  - destruct H as (t & _ & _ & ->).
    split_and!; [done..|]. eexists [_; _]. cbn. rewrite <- !app_assoc.
    split_and!; [done|lia|lia].
Qed.

Lemma detect_loop_frame filter_color canny capture model fuel a w :
  let r := detect_loop filter_color canny capture model fuel a w in
  enabled r.2 = enabled w ∧ pipe r.2 = pipe w ∧ (grabbed w ≤ grabbed r.2)%nat
  ∧ ∃ seen, invoked r.2 = invoked w ++ seen
            ∧ (length seen ≤ 3 * (grabbed r.2 - grabbed w))%nat
            ∧ (enabled w = true → (grabbed r.2 - grabbed w ≤ length seen)%nat).
Proof.
  cbv zeta. revert a w. induction fuel as [|fuel IH]; intros a w.
  { cbn. split_and!; [done..|]. exists []. rewrite app_nil_r. cbn.
    split_and!; [done|lia|lia]. }
  rewrite detect_loop_step.
  destruct (merge_detection_frame filter_color canny model (capture (grabbed w))
              (log_grab w)) as (Hen & Hgr & Hpipe & seen & Hseen & Hmax & Hmin).
  change (enabled (log_grab w)) with (enabled w) in *.
  change (grabbed (log_grab w)) with (S (grabbed w)) in *.
  change (pipe (log_grab w)) with (pipe w) in *.
  change (invoked (log_grab w)) with (invoked w) in *.
  assert (Hstop : ∀ r : result (option (list string)),
            enabled (r, (merge_detection filter_color canny model
                           (capture (grabbed w)) (log_grab w)).2).2 = enabled w
            ∧ pipe (r, (merge_detection filter_color canny model
                          (capture (grabbed w)) (log_grab w)).2).2 = pipe w
            ∧ (grabbed w ≤ grabbed (r, (merge_detection filter_color canny model
                          (capture (grabbed w)) (log_grab w)).2).2)%nat
            ∧ ∃ seen0, invoked (r, (merge_detection filter_color canny model
                          (capture (grabbed w)) (log_grab w)).2).2 = invoked w ++ seen0
                ∧ (length seen0 ≤ 3 * (grabbed (r, (merge_detection filter_color
                     canny model (capture (grabbed w)) (log_grab w)).2).2
                     - grabbed w))%nat
                ∧ (enabled w = true →
                   (grabbed (r, (merge_detection filter_color canny model
                      (capture (grabbed w)) (log_grab w)).2).2 - grabbed w
                    ≤ length seen0)%nat)).
  { intros r. cbn [snd]. rewrite Hgr.
    split_and!; [done|done|lia|]. exists seen.
    split_and!; [done|lia|]. intros Hon. specialize (Hmin Hon). lia. }
  destruct (merge_detection filter_color canny model (capture (grabbed w)) (log_grab w))
    as [[arrows|e] w2]; cbn [snd] in *.
  - case_bool_decide; [apply (Hstop (Ok (Some arrows)))|].
    case_bool_decide; [|apply (Hstop (Ok (Some arrows)))].
    destruct (IH (a + 1) w2) as (Hen' & Hpipe' & Hgr' & seen' & Hseen' & Hmax' & Hmin').
    rewrite Hen', Hpipe', Hen, Hpipe. split_and!; [done|done|lia|].
    exists (seen ++ seen'). rewrite Hseen', Hseen, <- app_assoc, length_app.
    split_and!; [done|lia|].
    intros Hon. rewrite Hen in Hmin'. specialize (Hmin Hon). specialize (Hmin' Hon). lia.
  - apply (Hstop (Raise e)).
Qed.

Lemma session_frame filter_color canny capture model fuel w :
  (101 ≤ fuel)%nat →
  let r := session filter_color canny capture model fuel w in
  enabled r.2 = enabled w
  ∧ (1 ≤ grabbed r.2 - grabbed w ≤ 101)%nat
  ∧ (∃ seen, invoked r.2 = invoked w ++ seen
             ∧ (length seen ≤ 3 * (grabbed r.2 - grabbed w))%nat
             ∧ (enabled w = true → (grabbed r.2 - grabbed w ≤ length seen)%nat))
  ∧ match r.1 with
    | Ok None => False
    | Ok (Some _) => ∃ line, first_line line ∧ pipe r.2 = pipe w ++ response line
    | Raise e => pipe r.2 = pipe w
    end.
Proof.
  intros Hfuel. cbv zeta. unfold session, bind.
  destruct (detect_loop_from filter_color canny capture model fuel 0 w)
    as (Hn & _ & Hlast); [unfold max_attempts; lia..|].
  destruct (detect_loop_frame filter_color canny capture model fuel 0 w)
    as (Hen & Hpipe & _ & Hseen).
  unfold max_attempts in Hn. change (Z.to_nat (100 + 1 - 0)) with 101%nat in Hn.
  destruct (detect_loop filter_color canny capture model fuel 0 w)
    as [[[arrows|]|e] w'] eqn:Hloop; cbn [fst snd] in *.
  - assert (Hdir : Forall direction arrows).
    { destruct (attempt _ _ _ _ _ _) as [arrows'|e'] eqn:Hatt; [|done].
      destruct Hlast as [[= <-] _].
      by eapply merge_detection_directions. }
    rewrite (handle_results_run _ _ Hdir). cbn [fst snd ret].
    unfold log_pipe. cbn [enabled grabbed invoked pipe].
    do 3 (split; [done|]).
    exists (response_line arrows). split.
    + destruct (decide (length arrows = 4%nat)) as [Hlen|Hlen].
      * right. by exists arrows.
      * left. unfold response_line. by rewrite decide_False.
    + unfold response, response_line. rewrite Hpipe, <- !app_assoc. cbn [app].
      case_bool_decide; [by rewrite decide_True|by rewrite decide_False].
  - destruct (attempt _ _ _ _ _ _); [by destruct Hlast as [[=] _]|done].
  - by do 3 (split; [done|]).
Qed.

(** X16: a session given fuel for 101 turns never runs out of it.  It grabs
    between 1 and 101 frames and runs the model at most three times per
    frame, so at most 303 times, and with the toggle on at least once per
    frame.  If the detection does not raise, exactly one response goes to
    the pipe, whose first line is [err] or the four letters of four
    directions; if it raises, nothing goes to the pipe. *)
Theorem session_outcome filter_color canny capture model fuel w :
  (101 ≤ fuel)%nat →
  let r := session filter_color canny capture model fuel w in
  let frames := (grabbed r.2 - grabbed w)%nat in
  let inferences := (length (invoked r.2) - length (invoked w))%nat in
  r.1 ≠ Ok None
  ∧ (1 ≤ frames ≤ 101)%nat
  ∧ (inferences ≤ 3 * frames)%nat ∧ (inferences ≤ 303)%nat
  ∧ (enabled w = true → (frames ≤ inferences)%nat)
  ∧ ((∃ e, r.1 = Raise e) → pipe r.2 = pipe w)
  ∧ (r.1 = Ok (Some ()) →
     ∃ line, first_line line ∧ pipe r.2 = pipe w ++ response line).
Proof.
  intros Hfuel. cbv zeta.
  destruct (session_frame filter_color canny capture model fuel w Hfuel)
    as (_ & Hframes & (seen & Hseen & Hmax & Hmin) & Hout).
  rewrite Hseen, length_app.
  split_and!; [|lia|lia|lia|lia| | |].
  - intros Hnone. by rewrite Hnone in Hout.
  - intros Hon. specialize (Hmin Hon). lia.
  - intros [e He]. by rewrite He in Hout.
  - intros Hok. by rewrite Hok in Hout.
Qed.

Lemma serve_frame filter_color canny capture model fuel connections w :
  (101 ≤ fuel)%nat →
  let r := serve filter_color canny capture model fuel connections w in
  enabled r.2 = enabled w ∧ r.1 ≠ Ok None
  ∧ (grabbed r.2 - grabbed w ≤ 101 * connections)%nat
  ∧ (grabbed w ≤ grabbed r.2)%nat
  ∧ (length (invoked w) ≤ length (invoked r.2))%nat
  ∧ ∃ lines,
      pipe r.2 = pipe w ++ List.concat (response <$> lines)
      ∧ Forall first_line lines
      ∧ (length lines ≤ connections)%nat
      ∧ (r.1 = Ok (Some ()) →
         length lines = connections
         ∧ (connections ≤ grabbed r.2 - grabbed w)%nat).
Proof.
  intros Hfuel. cbv zeta. revert w.
  induction connections as [|k IH]; intros w.
  { cbn. split_and!; [done|done|lia|lia|lia|]. exists []. cbn.
    rewrite app_nil_r. split_and!; try done; try lia; apply Forall_nil_2. }
  cbn [serve]. unfold bind.
  destruct (session_frame filter_color canny capture model fuel w Hfuel)
    as (Hen & Hframes & (seen & Hseen & _) & Hout).
  destruct (session filter_color canny capture model fuel w)
    as [[[[]|]|e] w1]; cbn [fst snd] in *.
  - destruct Hout as (line & Hline & Hpipe).
    destruct (IH w1) as (Hen' & Hnone & Hgr & Hmono & Hinv & lines & Hlines & Hall & Hlen & Hok).
    rewrite Hen', Hen. split_and!; [done|done|lia|lia| |].
    { rewrite Hseen, length_app in Hinv. lia. }
    exists (line :: lines). rewrite Hlines, Hpipe, <- app_assoc. cbn.
    split_and!; [done|by constructor|lia|].
    intros Hdone. destruct (Hok Hdone) as [-> Hk]. lia.
  - done.
  - split_and!; [done|done|lia|lia| |].
    { rewrite Hseen, length_app. lia. }
    exists []. cbn. rewrite app_nil_r. split_and!; try done; try lia; apply Forall_nil_2.
Qed.

(** X17: the program sets the toggle on before anything else, so the model
    is run at least once, and the toggle stays on.  Serving [k] clients with
    fuel for 101 turns each never runs out of fuel, grabs at most
    [1 + 101 k] frames, and puts on the pipe whole responses only, one per
    client served, each beginning with [err] or the four letters of four
    directions: an exception leaves no response half written.  When no
    detection raises, there are exactly [k] responses. *)
Theorem main_outcome filter_color canny capture model fuel connections w :
  (101 ≤ fuel)%nat →
  let r := main filter_color canny capture model fuel connections w in
  r.1 ≠ Ok None
  ∧ enabled r.2 = true
  ∧ (length (invoked w) < length (invoked r.2))%nat
  ∧ (1 ≤ grabbed r.2 - grabbed w ≤ 1 + 101 * connections)%nat
  ∧ ∃ lines,
      pipe r.2 = pipe w ++ List.concat (response <$> lines)
      ∧ Forall first_line lines
      ∧ (length lines ≤ connections)%nat
      ∧ (r.1 = Ok (Some ()) →
         length lines = connections
         ∧ (1 + connections ≤ grabbed r.2 - grabbed w)%nat).
Proof.
  intros Hfuel. cbv zeta. unfold main, bind, set_enabled, grab.
  set (w0 := log_grab {| enabled := true; invoked := invoked w;
                         grabbed := grabbed w; pipe := pipe w |}).
  destruct (merge_detection_frame filter_color canny model (capture (grabbed w)) w0)
    as (Hen & Hgr & Hpipe & seen & Hseen & _ & Hmin).
  specialize (Hmin eq_refl).
  change (enabled w0) with true in Hen.
  change (grabbed w0) with (S (grabbed w)) in Hgr.
  change (pipe w0) with (pipe w) in Hpipe.
  change (invoked w0) with (invoked w) in Hseen.
  cbn [grabbed].
  destruct (merge_detection filter_color canny model (capture (grabbed w)) w0)
    as [[arrows|e] w1]; cbn [fst snd] in *.
  - destruct (serve_frame filter_color canny capture model fuel connections w1 Hfuel)
      as (Hen' & Hnone & Hframes & Hmono & Hinv & lines & Hlines & Hall & Hlen & Hok).
    rewrite Hen', Hen. split_and!; [done|done| |lia|lia|].
    { rewrite Hseen, length_app in Hinv. lia. }
    exists lines. rewrite Hlines, Hpipe. split_and!; [done..|].
    intros Hdone. destruct (Hok Hdone) as [-> Hk]. lia.
  - split_and!; [done|done| |lia|lia|].
    { rewrite Hseen, length_app. lia. }
    exists []. cbn. rewrite app_nil_r. split_and!; try done; try lia; apply Forall_nil_2.
Qed.

(** ** Worked inputs for the further properties *)

(** X3, witness: the four arrows, listed forwards and backwards. *)
Lemma sort_by_confidence_order_independent_witness :
  four_arrows ≡ₚ reverse four_arrows
  ∧ (sort_by_confidence (λ _, four_arrows) black_frame fresh_world).1
    = (sort_by_confidence (λ _, reverse four_arrows) black_frame fresh_world).1.
Proof.
  assert (Hperm : four_arrows ≡ₚ reverse four_arrows)
    by (symmetry; apply reverse_Permutation).
  split; [exact Hperm|].
  apply (sort_by_confidence_order_independent
           (λ _, four_arrows) (λ _, reverse four_arrows) black_frame fresh_world Hperm).
  intros s t Hs Ht _ _ Heq. unfold four_arrows in Hs, Ht.
  rewrite !elem_of_cons, elem_of_nil in Hs, Ht.
  destruct Hs as [->|[->|[->|[->|[]]]]]; destruct Ht as [->|[->|[->|[->|[]]]]];
    try reflexivity; vm_compute in Heq; discriminate.
Defined.

(** X4, witness: the four arrows have known classes. *)
Lemma upright_classes_of_reading_order_witness :
  Forall known_class four_arrows
  ∧ ∃ sorted labels,
      sorted ≡ₚ four_arrows
      ∧ upright_classes_of four_arrows fresh_world = (Ok labels, fresh_world).
Proof.
  assert (Hknown : Forall known_class four_arrows) by by_evaluation.
  split; [exact Hknown|].
  destruct (upright_classes_of_reading_order four_arrows fresh_world Hknown)
    as (sorted & labels & Hperm & _ & _ & Hrun & _).
  exists sorted, labels. by split.
Defined.

(** X5, witness: three left/right positions against two rotated labels. *)
Lemma merge_classes_consumes_in_order_witness :
  Forall (λ r, r ∈ ["left"; "right"]) ["right"; "left"]
  ∧ List.filter (λ c : string, bool_decide (c ∈ ["left"; "right"]))
      (merge_classes ["left"; "up"; "right"; "left"] ["right"; "left"])
    = ["right"; "left"; "left"].
Proof.
  assert (Hrot : Forall (λ r, r ∈ ["left"; "right"]) ["right"; "left"])
    by by_evaluation.
  split; [exact Hrot|].
  exact (proj1 (merge_classes_consumes_in_order
                  ["left"; "up"; "right"; "left"] ["right"; "left"] Hrot)).
Defined.


(** X8, witness: scenario A. *)
Lemma merge_detection_keeps_axis_witness :
  (merge_detection id id
     (by_width four_arrows four_arrows [det (9 # 10) (box_at (20 # 100)) 1])
     black_frame fresh_world).1
  = Ok ["up"; "right"; "down"; "right"]
  ∧ Forall direction ["up"; "right"; "down"; "right"].
Proof.
  assert (Hrun : (merge_detection id id
     (by_width four_arrows four_arrows [det (9 # 10) (box_at (20 # 100)) 1])
     black_frame fresh_world).1 = Ok ["up"; "right"; "down"; "right"])
    by (vm_compute; reflexivity).
  split; [exact Hrun|].
  exact (proj1 (merge_detection_keeps_axis id id _ black_frame fresh_world _ Hrun)).
Defined.

(** X10, witness: the grabber's 1366x768 frame gives a region of 264 rows
    of 683 pixels. *)
Lemma first_crop_region_witness :
  wf_image black_frame
  ∧ height (crop black_frame 120 (height black_frame / 2)
              (width black_frame / 4) (3 * width black_frame / 4)) = 264
  ∧ width (crop black_frame 120 (height black_frame / 2)
             (width black_frame / 4) (3 * width black_frame / 4)) = 683.
Proof.
  assert (Hwf : wf_image black_frame) by (apply full_wf; lia).
  split; [exact Hwf|].
  destruct (first_crop_region black_frame Hwf) as (Hh & Hw & _).
  split; [exact Hh|exact Hw].
Defined.

(** X11, witness: the boxes of the four arrows in a 683x264 image. *)
Lemma rune_box_of_encloses_witness :
  wf_image (full 264 683 black)
  ∧ tail_of <$> four_arrows ≠ []
  ∧ ∃ top bottom left right,
      run_pure (rune_box_of (full 264 683 black) (tail_of <$> four_arrows))
      = Ok (crop (full 264 683 black) top bottom left right).
Proof.
  assert (Hwf : wf_image (full 264 683 black)) by (apply full_wf; lia).
  assert (Hne : tail_of <$> four_arrows ≠ []) by discriminate.
  split; [exact Hwf|]. split; [exact Hne|].
  destruct (rune_box_of_encloses (full 264 683 black) (tail_of <$> four_arrows)
              Hwf Hne) as (top & bottom & left & right & Hrun & _).
  by exists top, bottom, left, right.
Defined.

(** X12, witness: the top right pixel of a 2x3 image comes first. *)
Lemma rotate_ccw_pixels_witness :
  wf_image small_rune_box
  ∧ width (rotate_ccw small_rune_box) = 2
  ∧ height (rotate_ccw small_rune_box) = 3
  ∧ pixel_at (rotate_ccw small_rune_box) 0 0 = Some (3, 3, 3)
  ∧ pixel_at (rotate_ccw small_rune_box) 2 1 = Some (4, 4, 4).
Proof.
  assert (Hwf : wf_image small_rune_box).
  { split; [by vm_compute|]. repeat constructor. }
  destruct (rotate_ccw_pixels small_rune_box Hwf) as (Hw & Hh & _ & Hpixel).
  split_and!; [exact Hwf|exact Hw|exact Hh|..].
  - rewrite (Hpixel 0%nat 0%nat) by (cbn; lia). reflexivity.
  - rewrite (Hpixel 2%nat 1%nat) by (cbn; lia). reflexivity.
Defined.

(** X13, witness: identity filters on a rectangular frame. *)
Lemma merge_detection_canvas_shape_witness :
  wf_image (cannied_of id id black_frame)
  ∧ ∃ seen,
      invoked (merge_detection id id (by_width four_arrows four_arrows [])
                 black_frame fresh_world).2 = invoked fresh_world ++ seen
      ∧ (length seen ≤ 3)%nat.
Proof.
  assert (Hwf : wf_image (cannied_of id id black_frame)).
  { apply crop_wf, full_wf. lia. }
  split; [exact Hwf|].
  destruct (merge_detection_canvas_shape id id (by_width four_arrows four_arrows [])
              black_frame fresh_world Hwf) as (seen & Hseen & Hlen & _).
  exists seen. by split.
Defined.

(** X15, witness: four directions never read as a failure. *)
Lemma handle_results_unambiguous_witness :
  Forall direction ["up"; "right"; "down"; "right"]
  ∧ Forall direction ["up"; "left"; "down"; "right"]
  ∧ pipe (handle_results ["up"; "right"; "down"; "right"] fresh_world).2
    ≠ pipe (handle_results [] fresh_world).2.
Proof.
  assert (H1 : Forall direction ["up"; "right"; "down"; "right"]) by by_evaluation.
  assert (H2 : Forall direction ["up"; "left"; "down"; "right"]) by by_evaluation.
  split; [exact H1|]. split; [exact H2|].
  exact (proj2 (handle_results_unambiguous _ _ fresh_world H1 H2 eq_refl eq_refl)).
Defined.

(** X16, witness: a session with fuel for 101 turns. *)
Lemma session_outcome_witness :
  (101 ≤ 101)%nat
  ∧ (session id id (λ _, black_frame) (by_width four_arrows four_arrows [])
       101 fresh_world).1 ≠ Ok None.
Proof.
  split; [lia|].
  exact (proj1 (session_outcome id id (λ _, black_frame)
                  (by_width four_arrows four_arrows []) 101 fresh_world (le_n 101))).
Defined.

(** X17, witness: the program serving two clients. *)
Lemma main_outcome_witness :
  (101 ≤ 101)%nat
  ∧ let r := main id id (λ _, black_frame) (by_width four_arrows four_arrows [])
               101 2 disabled_world in
    r.1 ≠ Ok None ∧ enabled r.2 = true.
Proof.
  split; [lia|]. cbv zeta.
  destruct (main_outcome id id (λ _, black_frame) (by_width four_arrows four_arrows [])
              101 2 disabled_world (le_n 101)) as (Hnone & Hen & _).
  by split.
Defined.
